(** * dataset.py: procedural shape animations

    A shallow embedding of [dataset.py], the script that renders circles and
    triangles moving over a 256x256 canvas, together with the properties of
    its placement code, its per-frame update closures, its file naming and
    its driver loop.

    Conventions of the embedding.
    - Python [int] is [Z].  Python [float] is read as an exact rational [Q]:
      every float the script computes is a decimal with two places shifted
      by [frame * speed / 50], and the properties below are statements of
      that closed-form arithmetic.  Numeric equality is [==] on [Q].
    - The [random] module is a tape of raw non-negative integers and a
      cursor; [random.random()] and [_randbelow] read one raw value each.
      No condition is put on the tape, so every statement holds for every
      behaviour of the generator.
    - Exceptions are explicit: a computation of type [M A] returns [Ok] or
      [Raise], each with the world it leaves behind.
    - matplotlib is reduced to what the script observes of it: an animation
      calls its update closure on the frames [0 .. frames-1] and [save]
      writes one artifact holding the poses it drew. *)

From Stdlib Require Import ZArith QArith Qround Lia Lqa List Bool.
From Stdlib Require Import Ascii String.
From Stdlib Require Import DecimalString DecimalPos.
Import ListNotations.

Local Open Scope Z_scope.

(* ================================================================== *)
(** ** Poses, artifacts and the world *)

Definition point : Type := (Q * Q)%type.

(** What a patch shows in one frame: the centre given to [set_center], or
    the three vertices given to [set_xy]. *)
Inductive pose : Type :=
| CirclePose (c : point)
| TrianglePose (v1 v2 v3 : point).

Record artifact : Type := {
  art_path : string;
  art_fps : Z;
  art_frames : list pose
}.

Record world : Type := {
  tape : nat -> N;
  cursor : nat;
  saved : list artifact
}.

Inductive exn : Type :=
| NameError (name : string)
| UnboundLocalError (name : string).

Inductive outcome (A : Type) : Type :=
| Ok (a : A) (w : world)
| Raise (e : exn) (w : world).
Arguments Ok {A} a w.
Arguments Raise {A} e w.

Definition M (A : Type) : Type := world -> outcome A.

Definition ret {A} (a : A) : M A := fun w => Ok a w.

Definition raise {A} (e : exn) : M A := fun w => Raise e w.

Definition bind {A B} (c : M A) (k : A -> M B) : M B :=
  fun w => match c w with
           | Ok a w' => k a w'
           | Raise e w' => Raise e w'
           end.

Notation "x <- c ;; k" := (bind c (fun x => k))
  (at level 61, c at next level, right associativity).
Notation "c ;;; k" := (bind c (fun _ => k))
  (at level 61, right associativity).

(** Pure code that may raise (the update closures). *)
Definition result (A : Type) : Type := (exn + A)%type.

(* ================================================================== *)
(** ** The [random] module *)

Definition next_raw : M N :=
  fun w => Ok (tape w (cursor w))
              {| tape := tape w; cursor := S (cursor w); saved := saved w |}.

(** [random.random()]: a multiple of 2^-53 in [0, 1). *)
Definition random_random : M Q :=
  r <- next_raw ;;
  ret (Z.of_N (r mod 2 ^ 53) # 2 ^ 53).

(** [random.uniform(a, b)] is [a + (b - a) * self.random()]. *)
Definition uniform (a b : Q) : M Q :=
  u <- random_random ;;
  ret (a + (b - a) * u)%Q.

Definition randbelow (n : Z) : M Z :=
  r <- next_raw ;;
  ret (Z.of_N r mod n).

(** [random.randint(a, b)] is [a + _randbelow(b - a + 1)]. *)
Definition randint (a b : Z) : M Z :=
  k <- randbelow (b - a + 1) ;;
  ret (a + k).

(** [random.choice(seq)] is [seq[_randbelow(len(seq))]]; the script only
    calls it on non-empty literals. *)
Definition choice (seq : list string) : M string :=
  k <- randbelow (Z.of_nat (List.length seq)) ;;
  ret (nth (Z.to_nat k) seq EmptyString).

(** [round(x)] to the nearest integer, ties to even. *)
Definition round_half_even (q : Q) : Z :=
  let f := Qfloor q in
  match (q - inject_Z f ?= 1 # 2)%Q with
  | Lt => f
  | Gt => f + 1
  | Eq => if Z.even f then f else f + 1
  end.

(** [round(x, 2)]. *)
Definition round2 (q : Q) : Q :=
  (inject_Z (round_half_even (q * 100)) / 100)%Q.

(** The recurring expression [round(random.uniform(a, b), 2)] with integer
    bounds. *)
Definition rand_coord (a b : Z) : M Q :=
  v <- uniform (inject_Z a) (inject_Z b) ;;
  ret (round2 v).

(* ================================================================== *)
(** ** Placement of a circle *)

Local Open Scope string_scope.

Definition maxDistOver : Z := 155.

Definition setpositioncircle (direction : string) (radius : Z)
    (diagonalDirection : Z) : M point :=
  if direction =? "right" then
    x <- rand_coord radius (maxDistOver - radius) ;;
    y <- rand_coord radius (256 - radius) ;;
    ret (x, y)
  else if direction =? "left" then
    x <- rand_coord (256 - maxDistOver + radius) (256 - radius) ;;
    y <- rand_coord radius (256 - radius) ;;
    ret (x, y)
  else if direction =? "up" then
    x <- rand_coord radius (256 - radius) ;;
    y <- rand_coord radius (maxDistOver - radius) ;;
    ret (x, y)
  else if direction =? "down" then
    x <- rand_coord radius (256 - radius) ;;
    y <- rand_coord (256 - maxDistOver + radius) (256 - radius) ;;
    ret (x, y)
  else if direction =? "diagonal" then
    if (diagonalDirection =? 1)%Z then
      x <- rand_coord radius (maxDistOver - radius) ;;
      y <- rand_coord radius (maxDistOver - radius) ;;
      ret (x, y)
    else if (diagonalDirection =? 2)%Z then
      x <- rand_coord radius (maxDistOver - radius) ;;
      y <- rand_coord (256 - maxDistOver + radius) (256 - radius) ;;
      ret (x, y)
    else if (diagonalDirection =? 3)%Z then
      (* the second draw is [random.uniform(..., 256 - size)]: the first
         coordinate is drawn, then the name [size] is looked up, and no
         such name exists in the function or the module *)
      x <- rand_coord (256 - maxDistOver + radius) (256 - radius) ;;
      raise (NameError "size")
    else if (diagonalDirection =? 4)%Z then
      x <- rand_coord (256 - maxDistOver + radius) (256 - radius) ;;
      y <- rand_coord radius (maxDistOver - radius) ;;
      ret (x, y)
    else ret (0%Q, 0%Q)
  else ret (0%Q, 0%Q).

(* ================================================================== *)
(** ** Per-frame motion *)

(** The expression [frame * ((speed / 100) * 2.0)] that every update
    closure of the script repeats. *)
Definition travel (speed frame : Z) : Q :=
  (inject_Z frame * ((inject_Z speed / 100) * 2))%Q.

(** The closures defined inside [circle]; the variables they capture are
    arguments here.  Each ends in [circle.set_center((x, y))]. *)
Module Circle.
Section Closures.
Variables (x0 y0 : Q) (speed diagonalDirection : Z).

Definition right (frame : Z) : result pose :=
    let x := (x0 + travel speed frame)%Q in
    let y := y0 in
    inr (CirclePose (x, y)).

Definition left (frame : Z) : result pose :=
    let x := (x0 - travel speed frame)%Q in
    let y := y0 in
    inr (CirclePose (x, y)).

Definition up (frame : Z) : result pose :=
    let x := x0 in
    let y := (y0 + travel speed frame)%Q in
    inr (CirclePose (x, y)).

Definition down (frame : Z) : result pose :=
    let x := x0 in
    let y := (y0 - travel speed frame)%Q in
    inr (CirclePose (x, y)).

Definition diagonal (frame : Z) : result pose :=
    if (diagonalDirection =? 1)%Z then
      inr (CirclePose ((x0 + travel speed frame)%Q, (y0 + travel speed frame)%Q))
    else if (diagonalDirection =? 2)%Z then
      inr (CirclePose ((x0 + travel speed frame)%Q, (y0 - travel speed frame)%Q))
    else if (diagonalDirection =? 3)%Z then
      inr (CirclePose ((x0 - travel speed frame)%Q, (y0 - travel speed frame)%Q))
    else if (diagonalDirection =? 4)%Z then
      inr (CirclePose ((x0 - travel speed frame)%Q, (y0 + travel speed frame)%Q))
    else inl (UnboundLocalError "x").
End Closures.
End Circle.

(** The closures defined inside [triangle]; each ends in [tri.set_xy]. *)
Module Triangle.
Section Closures.
Variables (x1 y1 x2 y2 x3 y3 : Q) (speed diagonalDirection : Z).

Definition right (frame : Z) : result pose :=
    inr (TrianglePose ((x1 + travel speed frame)%Q, y1)
                      ((x2 + travel speed frame)%Q, y2)
                      ((x3 + travel speed frame)%Q, y3)).

Definition left (frame : Z) : result pose :=
    inr (TrianglePose ((x1 - travel speed frame)%Q, y1)
                      ((x2 - travel speed frame)%Q, y2)
                      ((x3 - travel speed frame)%Q, y3)).

Definition up (frame : Z) : result pose :=
    inr (TrianglePose (x1, (y1 + travel speed frame)%Q)
                      (x2, (y2 + travel speed frame)%Q)
                      (x3, (y3 + travel speed frame)%Q)).

Definition down (frame : Z) : result pose :=
    inr (TrianglePose (x1, (y1 - travel speed frame)%Q)
                      (x2, (y2 - travel speed frame)%Q)
                      (x3, (y3 - travel speed frame)%Q)).

Definition diagonal (frame : Z) : result pose :=
    if (diagonalDirection =? 1)%Z then
      inr (TrianglePose
             ((x1 + travel speed frame)%Q, (y1 + travel speed frame)%Q)
             ((x2 + travel speed frame)%Q, (y2 + travel speed frame)%Q)
             ((x3 + travel speed frame)%Q, (y3 + travel speed frame)%Q))
    else if (diagonalDirection =? 2)%Z then
      inr (TrianglePose
             ((x1 + travel speed frame)%Q, (y1 - travel speed frame)%Q)
             ((x2 + travel speed frame)%Q, (y2 - travel speed frame)%Q)
             ((x3 + travel speed frame)%Q, (y3 - travel speed frame)%Q))
    else if (diagonalDirection =? 3)%Z then
      inr (TrianglePose
             ((x1 - travel speed frame)%Q, (y1 - travel speed frame)%Q)
             ((x2 - travel speed frame)%Q, (y2 - travel speed frame)%Q)
             ((x3 - travel speed frame)%Q, (y3 - travel speed frame)%Q))
    else if (diagonalDirection =? 4)%Z then
      inr (TrianglePose
             ((x1 - travel speed frame)%Q, (y1 + travel speed frame)%Q)
             ((x2 - travel speed frame)%Q, (y2 + travel speed frame)%Q)
             ((x3 - travel speed frame)%Q, (y3 + travel speed frame)%Q))
    else inl (UnboundLocalError "x1delta").
End Closures.
End Triangle.

(* ================================================================== *)
(** ** Placement of a triangle *)

(** The six coordinates [x1, y1, x2, y2, x3, y3] that the function
    returns. *)
Record vertices : Type := {
  vx1 : Q; vy1 : Q; vx2 : Q; vy2 : Q; vx3 : Q; vy3 : Q
}.

(** The branches that draw the left base vertex [(x1, y1)] ... *)
Definition from_left_vertex (base height : Z) (x1 y1 : Q) : vertices :=
  let x2 := (x1 + inject_Z base)%Q in
  let y2 := y1 in
  let x3 := (x1 + inject_Z base / 2)%Q in
  let y3 := (y2 + inject_Z height)%Q in
  {| vx1 := x1; vy1 := y1; vx2 := x2; vy2 := y2; vx3 := x3; vy3 := y3 |}.

(** ... and those that draw the right base vertex [(x2, y2)]. *)
Definition from_right_vertex (base height : Z) (x2 y2 : Q) : vertices :=
  let x1 := (x2 - inject_Z base)%Q in
  let y1 := y2 in
  let x3 := (x1 + inject_Z base / 2)%Q in
  let y3 := (y2 + inject_Z height)%Q in
  {| vx1 := x1; vy1 := y1; vx2 := x2; vy2 := y2; vx3 := x3; vy3 := y3 |}.

Definition setpositiontriangle (direction : string) (base height : Z)
    (diagonalDirection : Z) : M vertices :=
  if direction =? "right" then
    x1 <- rand_coord 0 (maxDistOver - base) ;;
    y1 <- rand_coord 0 (256 - height) ;;
    ret (from_left_vertex base height x1 y1)
  else if direction =? "left" then
    x2 <- rand_coord (256 - maxDistOver + base) 256 ;;
    y2 <- rand_coord 0 (256 - height) ;;
    ret (from_right_vertex base height x2 y2)
  else if direction =? "up" then
    x1 <- rand_coord 0 (256 - base) ;;
    y1 <- rand_coord 0 (maxDistOver - height) ;;
    ret (from_left_vertex base height x1 y1)
  else if direction =? "down" then
    x1 <- rand_coord 0 (256 - base) ;;
    y1 <- rand_coord (256 - maxDistOver) (256 - height) ;;
    ret (from_left_vertex base height x1 y1)
  else if direction =? "diagonal" then
    if (diagonalDirection =? 1)%Z then
      x1 <- rand_coord 0 (maxDistOver - base) ;;
      y1 <- rand_coord 0 (maxDistOver - height) ;;
      ret (from_left_vertex base height x1 y1)
    else if (diagonalDirection =? 2)%Z then
      x1 <- rand_coord 0 (maxDistOver - base) ;;
      y1 <- rand_coord (256 - maxDistOver) (256 - height) ;;
      ret (from_left_vertex base height x1 y1)
    else if (diagonalDirection =? 3)%Z then
      x2 <- rand_coord (256 - maxDistOver + base) 256 ;;
      y2 <- rand_coord (256 - maxDistOver) (256 - height) ;;
      ret (from_right_vertex base height x2 y2)
    else if (diagonalDirection =? 4)%Z then
      x2 <- rand_coord (256 - maxDistOver + base) 256 ;;
      y2 <- rand_coord 0 (maxDistOver - height) ;;
      ret (from_right_vertex base height x2 y2)
    else raise (UnboundLocalError "x1")
  else raise (UnboundLocalError "x1").

(* ================================================================== *)
(** ** Formatting of integers in f-strings *)

(** [str(z)], which is what [{radius}] and [{speed}] expand to. *)
Definition str (z : Z) : string := NilZero.string_of_int (Z.to_int z).

Fixpoint zeros (n : nat) : string :=
  match n with
  | O => ""
  | S n' => String "0" (zeros n')
  end.

Definition zfill (width : nat) (s : string) : string :=
  zeros (width - String.length s) ++ s.

(** [{i:03}]: zero padding to width 3, the sign (if any) before the
    padding. *)
Definition format_03 (z : Z) : string :=
  if (z <? 0)%Z then "-" ++ zfill 2 (str (- z)) else zfill 3 (str z).

(* ================================================================== *)
(** ** Animations *)

Fixpoint draw (func : Z -> result pose) (frames : list Z)
    : result (list pose) :=
  match frames with
  | [] => inr []
  | f :: fs =>
      match func f with
      | inl e => inl e
      | inr p =>
          match draw func fs with
          | inl e => inl e
          | inr ps => inr (p :: ps)
          end
      end
  end.

(** [range(n)]. *)
Definition range (n : nat) : list Z := map Z.of_nat (seq 0 n).

(** [animation.FuncAnimation(fig, func, frames=n, ...)]. *)
Record FuncAnimation : Type := {
  ani_func : Z -> result pose;
  ani_frames : nat
}.

(** [ani.save(filename, fps=fps)]: the closure is called on every frame in
    increasing order and the poses it sets make up the file; an exception
    of the closure propagates. *)
Definition save (ani : FuncAnimation) (filename : string) (fps : Z)
    : M unit :=
  fun w =>
    match draw (ani_func ani) (range (ani_frames ani)) with
    | inl e => Raise e w
    | inr ps =>
        Ok tt {| tape := tape w; cursor := cursor w;
                 saved := saved w ++
                   [{| art_path := filename; art_fps := fps;
                       art_frames := ps |}] |}
    end.

Section Dataset.

(** [ROOT = os.path.join(os.path.dirname(os.path.dirname(__file__)), "data")]
    depends on where the script is installed. *)
Variable ROOT : string.

(** The if-chain that ends [circle]: the closure handed to
    [FuncAnimation] and the direction code of the file name.  The five
    branches differ in nothing else. *)
Definition circle_branch (direction : string) (x0 y0 : Q)
    (speed diagonalDirection : Z) : option ((Z -> result pose) * string) :=
  if direction =? "right" then Some (Circle.right x0 y0 speed, "r")
  else if direction =? "left" then Some (Circle.left x0 y0 speed, "l")
  else if direction =? "up" then Some (Circle.up x0 y0 speed, "u")
  else if direction =? "down" then Some (Circle.down x0 y0 speed, "dwn")
  else if direction =? "diagonal" then
    Some (Circle.diagonal x0 y0 speed diagonalDirection, "diag")
  else None.

(** [f'{ROOT}\\{i:03}-c-r{radius}-<code>-{speed}.gif'] *)
Definition circle_filename (i radius : Z) (code : string) (speed : Z)
    : string :=
  ROOT ++ "\" ++ format_03 i ++ "-c-r" ++ str radius ++ "-" ++ code
       ++ "-" ++ str speed ++ ".gif".

Definition circle (direction : string) (radius speed ind diagonalDirection : Z)
    : M unit :=
  let i := ind in
  p <- setpositioncircle direction radius diagonalDirection ;;
  let '(x0, y0) := p in
  match circle_branch direction x0 y0 speed diagonalDirection with
  | Some (func, code) =>
      let ani := {| ani_func := func; ani_frames := 50 |} in
      save ani (circle_filename i radius code speed) 25
  | None => ret tt
  end.

Definition triangle_branch (direction : string) (v : vertices)
    (speed diagonalDirection : Z) : option ((Z -> result pose) * string) :=
  let '{| vx1 := x1; vy1 := y1; vx2 := x2; vy2 := y2;
          vx3 := x3; vy3 := y3 |} := v in
  if direction =? "right" then
    Some (Triangle.right x1 y1 x2 y2 x3 y3 speed, "r")
  else if direction =? "left" then
    Some (Triangle.left x1 y1 x2 y2 x3 y3 speed, "l")
  else if direction =? "up" then
    Some (Triangle.up x1 y1 x2 y2 x3 y3 speed, "u")
  else if direction =? "down" then
    Some (Triangle.down x1 y1 x2 y2 x3 y3 speed, "dwn")
  else if direction =? "diagonal" then
    Some (Triangle.diagonal x1 y1 x2 y2 x3 y3 speed diagonalDirection, "diag")
  else None.

(** [f'{ROOT}\\{i:03}-t-b{base}h{height}-<code>-{speed}.gif'] *)
Definition triangle_filename (i base height : Z) (code : string) (speed : Z)
    : string :=
  ROOT ++ "\" ++ format_03 i ++ "-t-b" ++ str base ++ "h" ++ str height
       ++ "-" ++ code ++ "-" ++ str speed ++ ".gif".

Definition triangle (direction : string)
    (base height speed ind diagonalDirection : Z) : M unit :=
  let i := ind in
  v <- setpositiontriangle direction base height diagonalDirection ;;
  match triangle_branch direction v speed diagonalDirection with
  | Some (func, code) =>
      let ani := {| ani_func := func; ani_frames := 50 |} in
      save ani (triangle_filename i base height code speed) 25
  | None => ret tt
  end.

(* ================================================================== *)
(** ** The driver *)

(** The namespace that [parser.parse_args()] returns. *)
Record Namespace : Type := {
  args_iterations : Z;
  args_shape : option string;
  args_radius : Z;
  args_rectwidth : Z;
  args_rectheight : Z;
  args_base : Z;
  args_triheight : Z;
  args_direction : option string;
  args_speed : Z
}.

(** The local variables of [main] that are assigned only under a flag; a
    variable that was never assigned is [None]. *)
Record locals : Type := {
  v_direction : option string;
  v_radius : option Z;
  v_base : option Z;
  v_triheight : option Z;
  v_rectWidth : option Z;
  v_rectHeight : option Z;
  v_speed : option Z
}.

Definition unbound : locals :=
  {| v_direction := None; v_radius := None; v_base := None;
     v_triheight := None; v_rectWidth := None; v_rectHeight := None;
     v_speed := None |}.

(** Reading a local variable. *)
Definition load {A} (name : string) (v : option A) : M A :=
  match v with
  | Some a => ret a
  | None => raise (UnboundLocalError name)
  end.

(** One pass through the body of [for i in range(args.iterations)]. *)
Definition loop_body (args : Namespace) (i : Z) (l : locals) : M locals :=
  let randDirection :=
    match args_direction args with None => true | Some _ => false end in
  let randRadius := (args_radius args =? 0)%Z in
  let randBase := (args_base args =? 0)%Z in
  let randTriangleHeight := (args_triheight args =? 0)%Z in
  let randWidth := (args_rectwidth args =? 0)%Z in
  let randRectangleHeight := (args_rectheight args =? 0)%Z in
  let randSpeed := (args_speed args =? 0)%Z in
  direction <-
    (if randDirection
     then d <- choice ["right"; "left"; "up"; "down"; "diagonal"] ;;
          ret (Some d)
     else ret (v_direction l)) ;;
  radius <-
    (if randRadius then r <- randint 10 77 ;; ret (Some r)
     else ret (v_radius l)) ;;
  base <-
    (if randBase then b <- randint 10 75 ;; ret (Some b)
     else ret (v_base l)) ;;
  triheight <-
    (if randTriangleHeight then h <- randint 10 75 ;; ret (Some h)
     else ret (v_triheight l)) ;;
  rectWidth <-
    (if randWidth then rw <- randint 10 75 ;; ret (Some rw)
     else ret (v_rectWidth l)) ;;
  rectHeight <-
    (if randRectangleHeight then rh <- randint 10 75 ;; ret (Some rh)
     else ret (v_rectHeight l)) ;;
  speed <-
    (if randSpeed then s <- randint 20 100 ;; ret (Some s)
     else ret (v_speed l)) ;;
  diagonalDirection <- randint 1 4 ;;
  shape <-
    match args_shape args with
    | None => choice ["circle"; "rectangle"; "triangle"]
    | Some s => ret s
    end ;;
  (if shape =? "circle" then
     d <- load "direction" direction ;;
     r <- load "radius" radius ;;
     s <- load "speed" speed ;;
     circle d r s i diagonalDirection
   else if shape =? "triangle" then
     d <- load "direction" direction ;;
     b <- load "base" base ;;
     h <- load "triheight" triheight ;;
     s <- load "speed" speed ;;
     triangle d b h s i diagonalDirection
   else ret tt) ;;;
  ret {| v_direction := direction; v_radius := radius; v_base := base;
         v_triheight := triheight; v_rectWidth := rectWidth;
         v_rectHeight := rectHeight; v_speed := speed |}.

Fixpoint for_each (body : Z -> locals -> M locals) (indices : list Z)
    (l : locals) : M locals :=
  match indices with
  | [] => ret l
  | i :: rest => l' <- body i l ;; for_each body rest l'
  end.

Definition main (args : Namespace) : M unit :=
  for_each (loop_body args) (range (Z.to_nat (args_iterations args)))
           unbound ;;;
  ret tt.

(* ================================================================== *)
(** ** The command line *)

(** The options as they stand after [type=int] has converted them: an
    option that is absent from the command line is [None]. *)
Record command_line : Type := {
  cl_iterations : option Z;
  cl_shape : option string;
  cl_radius : option Z;
  cl_rectwidth : option Z;
  cl_rectheight : option Z;
  cl_base : option Z;
  cl_triheight : option Z;
  cl_direction : option string;
  cl_speed : option Z
}.

Inductive parse_error : Type :=
| required (argument : string)
| invalid_choice (argument : string).

(** [choices=range(lo, hi)] *)
Definition in_range (lo hi v : Z) : bool := ((lo <=? v) && (v <? hi))%Z.

(** [choices=[...]] *)
Definition in_choices (choices : list string) (v : string) : bool :=
  existsb (String.eqb v) choices.

(** An integer option with [choices=range(lo, hi)] and [default=0]; the
    default is not checked against the choices. *)
Definition int_option (name : string) (lo hi : Z) (v : option Z)
    : parse_error + Z :=
  match v with
  | None => inr 0%Z
  | Some z => if in_range lo hi z then inr z else inl (invalid_choice name)
  end.

Definition shape_choices : list string := ["circle"; "rectangle"; "triangle"].

Definition direction_choices : list string :=
  ["right"; "left"; "up"; "down"; "diagonal"; "bouncy"].

Definition parse_args (cl : command_line) : parse_error + Namespace :=
  let iterations := match cl_iterations cl with None => 1%Z | Some n => n end in
  match cl_shape cl with
  | None => inl (required "shape")
  | Some shape =>
  if negb (in_choices shape_choices shape) then inl (invalid_choice "shape")
  else
  match int_option "radius" 10 78 (cl_radius cl) with
  | inl e => inl e
  | inr radius =>
  match int_option "rectwidth" 10 76 (cl_rectwidth cl) with
  | inl e => inl e
  | inr rectwidth =>
  match int_option "rectheight" 10 76 (cl_rectheight cl) with
  | inl e => inl e
  | inr rectheight =>
  match int_option "base" 10 76 (cl_base cl) with
  | inl e => inl e
  | inr base =>
  match int_option "triheight" 10 76 (cl_triheight cl) with
  | inl e => inl e
  | inr triheight =>
  match
    match cl_direction cl with
    | None => inr None
    | Some d => if in_choices direction_choices d then inr (Some d)
                else inl (invalid_choice "direction")
    end
  with
  | inl e => inl e
  | inr direction =>
  match int_option "speed" 20 101 (cl_speed cl) with
  | inl e => inl e
  | inr speed =>
      inr {| args_iterations := iterations; args_shape := Some shape;
             args_radius := radius; args_rectwidth := rectwidth;
             args_rectheight := rectheight; args_base := base;
             args_triheight := triheight; args_direction := direction;
             args_speed := speed |}
  end end end end end end end end.

(** [main(parser.parse_args())]: a command line that the parser rejects
    ends the program before [main] is entered. *)
Definition script (cl : command_line) (w : world)
    : parse_error + outcome unit :=
  match parse_args cl with
  | inl e => inl e
  | inr args => inr (main args w)
  end.

End Dataset.

(* ================================================================== *)
(** ** Vocabulary of the specification *)

Definition directions : list string :=
  ["right"; "left"; "up"; "down"; "diagonal"].

Definition valid_radius (r : Z) : Prop := (10 <= r <= 77)%Z.
Definition valid_side (s : Z) : Prop := (10 <= s <= 75)%Z.
Definition valid_speed (s : Z) : Prop := (20 <= s <= 100)%Z.
Definition valid_frame (f : Z) : Prop := (0 <= f <= 49)%Z.
Definition valid_quadrant (q : Z) : Prop := (1 <= q <= 4)%Z.

(** A point of the canvas [0,256] x [0,256]. *)
Definition on_canvas (p : point) : Prop :=
  (0 <= fst p <= 256 /\ 0 <= snd p <= 256)%Q.

Definition pose_on_canvas (p : pose) : Prop :=
  match p with
  | CirclePose c => on_canvas c
  | TrianglePose v1 v2 v3 => on_canvas v1 /\ on_canvas v2 /\ on_canvas v3
  end.

Definition point_eq (p q : point) : Prop :=
  (fst p == fst q /\ snd p == snd q)%Q.

Definition pose_eq (p q : pose) : Prop :=
  match p, q with
  | CirclePose c, CirclePose d => point_eq c d
  | TrianglePose a1 a2 a3, TrianglePose b1 b2 b3 =>
      point_eq a1 b1 /\ point_eq a2 b2 /\ point_eq a3 b3
  | _, _ => False
  end.

(** The unit step of a direction (and, for "diagonal", of a quadrant):
    1 up-right, 2 down-right, 3 down-left, 4 up-left. *)
Definition heading (direction : string) (quadrant : Z) : Z * Z :=
  if direction =? "right" then (1, 0)%Z
  else if direction =? "left" then (-1, 0)%Z
  else if direction =? "up" then (0, 1)%Z
  else if direction =? "down" then (0, -1)%Z
  else if direction =? "diagonal" then
    if (quadrant =? 1)%Z then (1, 1)%Z
    else if (quadrant =? 2)%Z then (1, -1)%Z
    else if (quadrant =? 3)%Z then (-1, -1)%Z
    else if (quadrant =? 4)%Z then (-1, 1)%Z
    else (0, 0)%Z
  else (0, 0)%Z.

(** A point moved by [d] canvas units along a heading. *)
Definition shifted (h : Z * Z) (d : Q) (p : point) : point :=
  ((fst p + inject_Z (fst h) * d)%Q, (snd p + inject_Z (snd h) * d)%Q).

(** The window in which one axis of the leading corner may start: the
    slack margin is at the far end for a positive heading, at the near end
    for a negative one. *)
Definition window_lo (h : Z) : Q := if (h <? 0)%Z then 101 else 0.
Definition window_hi (h : Z) : Q := if (0 <? h)%Z then 155 else 256.

(** The world after one raw value has been read from the tape. *)
Definition advance (w : world) : world :=
  {| tape := tape w; cursor := S (cursor w); saved := saved w |}.

(** The starting pose of a triangle, as the patch is created from it. *)
Definition start_pose (v : vertices) : pose :=
  TrianglePose (vx1 v, vy1 v) (vx2 v, vy2 v) (vx3 v, vy3 v).

(** The triangle relation: a horizontal base of the given length and the
    apex over its middle, [height] above it. *)
Definition isosceles (base height : Z) (p : pose) : Prop :=
  match p with
  | TrianglePose (x1, y1) (x2, y2) (x3, y3) =>
      (x2 == x1 + inject_Z base /\ y2 == y1 /\
       x3 == x1 + inject_Z base / 2 /\ y3 == y1 + inject_Z height)%Q
  | CirclePose _ => False
  end.

(** The shapes that the script places and moves.  A rectangle can be
    named on the command line, but no function of the script places or
    moves one. *)
Inductive ShapeSpec : Type :=
| CircleSpec (radius : Z)
| TriangleSpec (base height : Z).

Definition valid_shape (s : ShapeSpec) : Prop :=
  match s with
  | CircleSpec radius => valid_radius radius
  | TriangleSpec base height => valid_side base /\ valid_side height
  end.

(** The placement solver: the call that opens [circle], respectively
    [triangle], with the pose that the patch is created from. *)
Definition placement (s : ShapeSpec) (direction : string) (quadrant : Z)
    : M pose :=
  match s with
  | CircleSpec radius =>
      p <- setpositioncircle direction radius quadrant ;;
      ret (CirclePose p)
  | TriangleSpec base height =>
      v <- setpositiontriangle direction base height quadrant ;;
      ret (start_pose v)
  end.

(** The trajectory evaluator: the closure that [circle], respectively
    [triangle], animates for the direction, called on one frame.  [None]
    when the function animates nothing for the direction. *)
Definition trajectory (start : pose) (direction : string) (quadrant : Z)
    (speed frame : Z) : option (result pose) :=
  match start with
  | CirclePose (x0, y0) =>
      option_map (fun b => fst b frame)
                 (circle_branch direction x0 y0 speed quadrant)
  | TrianglePose (x1, y1) (x2, y2) (x3, y3) =>
      option_map (fun b => fst b frame)
                 (triangle_branch direction
                    {| vx1 := x1; vy1 := y1; vx2 := x2; vy2 := y2;
                       vx3 := x3; vy3 := y3 |} speed quadrant)
  end.


(** A pose moved by a vector: every vertex by the same one. *)
Definition translate (dx dy : Q) (p : pose) : pose :=
  let move := fun v : point => ((fst v + dx)%Q, (snd v + dy)%Q) in
  match p with
  | CirclePose c => CirclePose (move c)
  | TrianglePose v1 v2 v3 => TrianglePose (move v1) (move v2) (move v3)
  end.

(** A world whose generator always answers [random() = 0.5], with nothing
    saved yet. *)
Definition w_half : world :=
  {| tape := fun _ => (2 ^ 52)%N; cursor := 0; saved := [] |}.

(** The namespace of the command line [circle --radius 20]. *)
Definition args_radius_20 : Namespace :=
  {| args_iterations := 1; args_shape := Some "circle"; args_radius := 20;
     args_rectwidth := 0; args_rectheight := 0; args_base := 0;
     args_triheight := 0; args_direction := None; args_speed := 0 |}.

(** The namespace of the command line [rectangle -i 3 -d up]. *)
Definition args_rectangle : Namespace :=
  {| args_iterations := 3; args_shape := Some "rectangle"; args_radius := 0;
     args_rectwidth := 0; args_rectheight := 0; args_base := 0;
     args_triheight := 0; args_direction := Some "up"; args_speed := 0 |}.

(** An optional integer is either absent or within [lo, hi]. *)
Definition supplied_in (lo hi : Z) (v : option Z) : Prop :=
  forall z, v = Some z -> (lo <= z <= hi)%Z.

(** The command line [circle -d bouncy]. *)
Definition cl_bouncy : command_line :=
  {| cl_iterations := None; cl_shape := Some "circle"; cl_radius := None;
     cl_rectwidth := None; cl_rectheight := None; cl_base := None;
     cl_triheight := None; cl_direction := Some "bouncy";
     cl_speed := None |}.

(** One run as the file name records it. *)
Record run : Type := {
  run_index : Z;
  run_shape : ShapeSpec;
  run_direction : string;
  run_speed : Z
}.

Definition valid_run (r : run) : Prop :=
  (0 <= run_index r)%Z /\ valid_shape (run_shape r) /\
  In (run_direction r) directions /\ valid_speed (run_speed r).

(** The path that [circle], respectively [triangle], saves the run
    under; the direction code is the one of the branch that animates. *)
Definition artifact_name (ROOT : string) (r : run) : option string :=
  match run_shape r with
  | CircleSpec radius =>
      option_map
        (fun b => circle_filename ROOT (run_index r) radius (snd b)
                                  (run_speed r))
        (circle_branch (run_direction r) 0 0 (run_speed r) 0)
  | TriangleSpec base height =>
      option_map
        (fun b => triangle_filename ROOT (run_index r) base height (snd b)
                                    (run_speed r))
        (triangle_branch (run_direction r) (from_left_vertex 0 0 0 0)
                         (run_speed r) 0)
  end.

(** The documented form
    [{index:03d}-{shape-code}-{size-params}-{direction-code}-{speed}.gif]. *)
Definition shape_code (s : ShapeSpec) : string :=
  match s with
  | CircleSpec _ => "c"
  | TriangleSpec _ _ => "t"
  end.

Definition size_params (s : ShapeSpec) : string :=
  match s with
  | CircleSpec radius => "r" ++ str radius
  | TriangleSpec base height => "b" ++ str base ++ "h" ++ str height
  end.

Definition direction_code (direction : string) : string :=
  if direction =? "right" then "r"
  else if direction =? "left" then "l"
  else if direction =? "up" then "u"
  else if direction =? "down" then "dwn"
  else if direction =? "diagonal" then "diag"
  else "".

Definition documented_name (r : run) : string :=
  format_03 (run_index r) ++ "-" ++ shape_code (run_shape r) ++ "-"
    ++ size_params (run_shape r) ++ "-"
    ++ direction_code (run_direction r) ++ "-" ++ str (run_speed r)
    ++ ".gif".

(** Decoding a run of decimal digits. *)
Definition is_digit (c : ascii) : bool :=
  let n := nat_of_ascii c in ((48 <=? n) && (n <=? 57))%nat.

Fixpoint all_digits (s : string) : bool :=
  match s with
  | EmptyString => true
  | String c s' => is_digit c && all_digits s'
  end.

Definition no_leading_digit (s : string) : bool :=
  match s with
  | EmptyString => true
  | String c _ => negb (is_digit c)
  end.

Definition digits_value (s : string) : option Z :=
  option_map Z.of_uint (NilEmpty.uint_of_string s).



(** [name] is a local of [main] whose value the caller supplied. *)
Definition pinned (args : Namespace) (name : string) : Prop :=
  (name = "direction" /\ args_direction args <> None) \/
  (name = "radius" /\ args_radius args <> 0%Z) \/
  (name = "base" /\ args_base args <> 0%Z) \/
  (name = "triheight" /\ args_triheight args <> 0%Z) \/
  (name = "speed" /\ args_speed args <> 0%Z).

(** Total correctness of a computation: from every world that satisfies
    [Pre] it returns, and the value and the world it returns satisfy
    [Post]. *)
Definition returns {A} (Pre : world -> Prop) (c : M A)
    (Post : A -> world -> Prop) : Prop :=
  forall w, Pre w -> exists a w', c w = Ok a w' /\ Post a w'.

(** What every saved artifact of the script looks like. *)
Definition full_animation (a : artifact) : Prop :=
  List.length (art_frames a) = 50%nat /\ art_fps a = 25%Z.

(** The whole disc of a circle pose is on the canvas. *)
Definition disc_on_canvas (radius : Z) (p : pose) : Prop :=
  match p with
  | CirclePose (x, y) =>
      (inject_Z radius <= x <= 256 - inject_Z radius /\
       inject_Z radius <= y <= 256 - inject_Z radius)%Q
  | TrianglePose _ _ _ => False
  end.



(** A world with something saved already and a generator that answers
    [random() = 0.5]. *)
Definition w_used : world :=
  {| tape := fun _ => (2 ^ 52)%N; cursor := 5;
     saved := [{| art_path := "old.gif"; art_fps := 25; art_frames := [] |}] |}.

(** Partial outcomes of a computation: from every world that satisfies
    [Pre] it either returns within [Post] or raises within [Err]. *)
Definition ends {A} (Pre : world -> Prop) (c : M A)
    (Post : A -> world -> Prop) (Err : exn -> world -> Prop) : Prop :=
  forall w, Pre w ->
    match c w with
    | Ok a w' => Post a w'
    | Raise e w' => Err e w'
    end.

(** The artifact is saved under the name of a valid run number [i]. *)
Definition named_run (ROOT : string) (i : Z) (a : artifact) : Prop :=
  exists r, valid_run r /\ run_index r = i /\
            artifact_name ROOT r = Some (art_path a).

(** The namespace of the command line [triangle -i 3]. *)
Definition args_triangle : Namespace :=
  {| args_iterations := 3; args_shape := Some "triangle"; args_radius := 0;
     args_rectwidth := 0; args_rectheight := 0; args_base := 0;
     args_triheight := 0; args_direction := None; args_speed := 0 |}.

(** The namespace of the command line [circle -i 3]. *)
Definition args_circle : Namespace :=
  {| args_iterations := 3; args_shape := Some "circle"; args_radius := 0;
     args_rectwidth := 0; args_rectheight := 0; args_base := 0;
     args_triheight := 0; args_direction := None; args_speed := 0 |}.

(** The namespace of [circle -i 0 -r 20 -d up -s 50]. *)
Definition args_no_iterations : Namespace :=
  {| args_iterations := 0; args_shape := Some "circle"; args_radius := 20;
     args_rectwidth := 0; args_rectheight := 0; args_base := 0;
     args_triheight := 0; args_direction := Some "up"; args_speed := 50 |}.

(** How an integer option reaches the namespace: the supplied value
    unchanged and different from 0, or 0 when the option is absent. *)
Definition carried (v : Z) (supplied : option Z) : Prop :=
  match supplied with
  | None => v = 0%Z
  | Some z => v = z /\ v <> 0%Z
  end.

(** The command line [triangle -i 5 -b 30 -d left -s 100]. *)
Definition cl_triangle : command_line :=
  {| cl_iterations := Some 5%Z; cl_shape := Some "triangle";
     cl_radius := None; cl_rectwidth := None; cl_rectheight := None;
     cl_base := Some 30%Z; cl_triheight := None;
     cl_direction := Some "left"; cl_speed := Some 100%Z |}.

(* ================================================================== *)
(** ** Rounding and drawing *)

Lemma round_half_even_between (a b : Z) (q : Q) :
  (inject_Z a <= q)%Q -> (q <= inject_Z b)%Q ->
  (a <= round_half_even q <= b)%Z.
Proof.
  intros Ha Hb.
  assert (Hfa : (a <= Qfloor q)%Z).
  { rewrite <- (Qfloor_Z a). now apply Qfloor_resp_le. }
  assert (Hfb : (Qfloor q <= b)%Z).
  { rewrite <- (Qfloor_Z b). now apply Qfloor_resp_le. }
  assert (Hup : (inject_Z (Qfloor q) < q)%Q -> (Qfloor q + 1 <= b)%Z).
  { intros Hlt.
    assert (Hq : (inject_Z (Qfloor q) < inject_Z b)%Q) by lra.
    rewrite <- Zlt_Qlt in Hq. lia. }
  unfold round_half_even.
  destruct (Qcompare_spec (q - inject_Z (Qfloor q)) (1 # 2)) as [He | Hl | Hg].
  - destruct (Z.even (Qfloor q)); [lia |].
    split; [lia | apply Hup; lra].
  - lia.
  - split; [lia | apply Hup; lra].
Qed.

Lemma round2_between (a b : Z) (q : Q) :
  (inject_Z a <= q)%Q -> (q <= inject_Z b)%Q ->
  (inject_Z a <= round2 q <= inject_Z b)%Q.
Proof.
  intros Ha Hb.
  destruct (round_half_even_between (a * 100) (b * 100) (q * 100)) as [Hl Hu].
  - rewrite inject_Z_mult. change (inject_Z 100) with 100%Q. lra.
  - rewrite inject_Z_mult. change (inject_Z 100) with 100%Q. lra.
  - unfold round2.
    rewrite Zle_Qle, inject_Z_mult in Hl, Hu.
    change (inject_Z 100) with 100%Q in *.
    set (r := inject_Z (round_half_even (q * 100))) in *.
    split.
    + apply Qle_shift_div_l; lra.
    + apply Qle_shift_div_r; lra.
Qed.

Lemma unit_interval (r : N) :
  (0 <= Z.of_N (r mod 2 ^ 53) # 2 ^ 53 < 1)%Q.
Proof.
  assert (H : (r mod 2 ^ 53 < 2 ^ 53)%N) by (apply N.mod_lt; discriminate).
  unfold Qle, Qlt; cbn [Qnum Qden]. split.
  - rewrite Z.mul_0_l, Z.mul_1_r. apply N2Z.is_nonneg.
  - rewrite Z.mul_1_r, Z.mul_1_l.
    change (Z.pos (2 ^ 53)) with (Z.of_N (2 ^ 53)).
    now apply N2Z.inj_lt.
Qed.

(** A coordinate draw always returns, reads one raw value, and lands
    between its bounds. *)
Lemma rand_coord_spec (a b : Z) (w : world) :
  exists v, rand_coord a b w = Ok v (advance w) /\
            ((a <= b)%Z -> (inject_Z a <= v <= inject_Z b)%Q).
Proof.
  unfold rand_coord, uniform, random_random, next_raw, bind, ret.
  eexists; split; [reflexivity |].
  intros Hab. rewrite Zle_Qle in Hab.
  pose proof (unit_interval (tape w (cursor w))) as [H0 H1].
  set (u := Z.of_N (tape w (cursor w) mod 2 ^ 53) # 2 ^ 53) in *.
  apply round2_between; nra.
Qed.

Lemma travel_bounds (speed frame : Z) :
  valid_speed speed -> valid_frame frame ->
  (0 <= travel speed frame <= 98)%Q.
Proof.
  unfold valid_speed, valid_frame, travel. intros Hs Hf.
  rewrite !Zle_Qle in Hs, Hf. destruct Hs, Hf.
  change (inject_Z 20) with 20%Q in *. change (inject_Z 100) with 100%Q in *.
  change (inject_Z 0) with 0%Q in *. change (inject_Z 49) with 49%Q in *.
  set (s := inject_Z speed) in *. set (f := inject_Z frame) in *.
  assert (Hs : (s / 100 == s * (1 # 100))%Q) by (unfold Qdiv; reflexivity).
  rewrite Hs. nra.
Qed.

Lemma travel_zero (speed : Z) : (travel speed 0 == 0)%Q.
Proof. unfold travel. change (inject_Z 0) with 0%Q. ring. Qed.

(** Two coordinate draws in a row: the shape of every placement branch. *)
Lemma two_draws {A} (a b c d : Z) (f : Q -> Q -> A) (w : world) :
  exists x y,
    (x <- rand_coord a b ;; y <- rand_coord c d ;; ret (f x y)) w
      = Ok (f x y) (advance (advance w)) /\
    ((a <= b)%Z -> (inject_Z a <= x <= inject_Z b)%Q) /\
    ((c <= d)%Z -> (inject_Z c <= y <= inject_Z d)%Q).
Proof.
  destruct (rand_coord_spec a b w) as (x & Hx & Hxr).
  destruct (rand_coord_spec c d (advance w)) as (y & Hy & Hyr).
  exists x, y. unfold bind. rewrite Hx, Hy. now split.
Qed.

Lemma two_draws_inv {A} (a b c d : Z) (f : Q -> Q -> A) (w w' : world) (r : A) :
  (x <- rand_coord a b ;; y <- rand_coord c d ;; ret (f x y)) w = Ok r w' ->
  exists x y,
    r = f x y /\ w' = advance (advance w) /\
    ((a <= b)%Z -> (inject_Z a <= x <= inject_Z b)%Q) /\
    ((c <= d)%Z -> (inject_Z c <= y <= inject_Z d)%Q).
Proof.
  destruct (two_draws a b c d f w) as (x & y & E & Hx & Hy).
  rewrite E. intros [= <- <-]. now exists x, y.
Qed.

(** Integer bounds brought to [Q], literals included. *)
Ltac literal_Q :=
  repeat match goal with
  | H : context [inject_Z (Z.pos ?p)] |- _ =>
      change (inject_Z (Z.pos p)) with (Z.pos p # 1)%Q in H
  | H : context [inject_Z 0] |- _ => change (inject_Z 0) with 0%Q in H
  | |- context [inject_Z (Z.pos ?p)] =>
      change (inject_Z (Z.pos p)) with (Z.pos p # 1)%Q
  | |- context [inject_Z 0] => change (inject_Z 0) with 0%Q
  | |- context [inject_Z (Z.neg ?p)] =>
      change (inject_Z (Z.neg p)) with (Z.neg p # 1)%Q
  end.

Ltac to_Q :=
  unfold maxDistOver, Z.sub in *;
  rewrite ?inject_Z_plus, ?inject_Z_opp in *;
  literal_Q.

Ltac pick_direction H :=
  unfold directions in H; cbn [In] in H;
  destruct H as [H | [H | [H | [H | [H | []]]]]]; subst.

Ltac pick_quadrant H :=
  match type of H with
  | valid_quadrant ?q =>
      let E := fresh in
      assert (E : q = 1%Z \/ q = 2%Z \/ q = 3%Z \/ q = 4%Z)
        by (unfold valid_quadrant in H; lia);
      clear H; destruct E as [E | [E | [E | E]]]; subst
  end.

(** Where a circle starts: the disc fits in the window of each axis. *)
Lemma circle_start_window (direction : string) (radius dd : Z)
    (w w' : world) (p : point) :
  In direction directions -> valid_quadrant dd -> valid_radius radius ->
  setpositioncircle direction radius dd w = Ok p w' ->
  let r := inject_Z radius in
  let h := heading direction dd in
  (window_lo (fst h) + r <= fst p <= window_hi (fst h) - r)%Q /\
  (window_lo (snd h) + r <= snd p <= window_hi (snd h) - r)%Q.
Proof.
  intros Hd Hq Hr H. unfold valid_radius in Hr.
  pick_direction Hd; [| | | | pick_quadrant Hq];
    unfold setpositioncircle in H; cbn [String.eqb Ascii.eqb Bool.eqb] in H;
    cbn [Z.eqb Pos.eqb] in H;
    try (unfold bind in H at 1;
         destruct (rand_coord _ _ w); discriminate);
    apply two_draws_inv in H as (x & y & -> & -> & Hx & Hy);
    unfold maxDistOver in Hx, Hy;
    specialize (Hx ltac:(lia)); specialize (Hy ltac:(lia));
    cbn -[Qle Qplus Qminus inject_Z]; to_Q; lra.
Qed.

(** A circle is placed, with two draws, in every case but one. *)
Lemma setpositioncircle_returns (direction : string) (radius dd : Z)
    (w : world) :
  In direction directions -> valid_quadrant dd ->
  direction <> "diagonal" \/ dd <> 3%Z ->
  exists p, setpositioncircle direction radius dd w
            = Ok p (advance (advance w)).
Proof.
  intros Hd Hq Hne.
  pick_direction Hd; [| | | | pick_quadrant Hq];
    try (destruct Hne as [Hne | Hne]; now contradiction Hne);
    unfold setpositioncircle; cbn [String.eqb Ascii.eqb Bool.eqb Z.eqb Pos.eqb];
    match goal with
    | |- exists p, (x <- rand_coord ?a ?b ;; y <- rand_coord ?c ?d ;; _) _ = _ =>
        destruct (two_draws a b c d (@pair Q Q) w) as (x & y & E & _);
        exists (x, y); exact E
    end.
Qed.

(** The closure that [circle] animates moves the centre along the heading
    by [travel speed frame]. *)
Lemma circle_branch_spec (direction : string) (dd speed : Z) (x0 y0 : Q) :
  In direction directions -> valid_quadrant dd ->
  exists func code,
    circle_branch direction x0 y0 speed dd = Some (func, code) /\
    forall frame, exists c,
      func frame = inr (CirclePose c) /\
      point_eq c (shifted (heading direction dd) (travel speed frame) (x0, y0)).
Proof.
  intros Hd Hq.
  pick_direction Hd; [| | | | pick_quadrant Hq];
    (do 2 eexists; split; [reflexivity |]);
    intros frame; (eexists; split; [reflexivity |]);
    unfold point_eq, shifted; cbn [fst snd heading String.eqb Ascii.eqb Bool.eqb Z.eqb Pos.eqb];
    literal_Q; split; ring.
Qed.

(** A triangle is always placed, with two draws; its bounding box fits in
    the window of each axis and its vertices are in the triangle
    relation. *)
Lemma setpositiontriangle_spec (direction : string) (base height dd : Z)
    (w : world) :
  In direction directions -> valid_quadrant dd ->
  valid_side base -> valid_side height ->
  exists v,
    setpositiontriangle direction base height dd w
      = Ok v (advance (advance w)) /\
    isosceles base height (start_pose v) /\
    let h := heading direction dd in
    (window_lo (fst h) <= vx1 v /\ vx2 v <= window_hi (fst h) /\
     window_lo (snd h) <= vy1 v /\ vy3 v <= window_hi (snd h))%Q.
Proof.
  intros Hd Hq Hb Hh. unfold valid_side in Hb, Hh.
  pick_direction Hd; [| | | | pick_quadrant Hq];
    unfold setpositiontriangle;
    cbn [String.eqb Ascii.eqb Bool.eqb Z.eqb Pos.eqb];
    match goal with
    | |- exists v, (x <- rand_coord ?a ?b ;; y <- rand_coord ?c ?d ;;
                    ret (?f x y)) _ = _ /\ _ =>
        destruct (two_draws a b c d f w) as (x & y & E & Hx & Hy);
        exists (f x y); split; [exact E |]
    end;
    unfold maxDistOver in Hx, Hy;
    specialize (Hx ltac:(lia)); specialize (Hy ltac:(lia));
    unfold isosceles, start_pose, from_left_vertex, from_right_vertex;
    cbn -[Qle Qplus Qminus Qdiv Qeq inject_Z]; to_Q;
    rewrite !Zle_Qle in Hb, Hh; literal_Q;
    repeat split; try lra.
Qed.

(** The closure that [triangle] animates moves the three vertices along
    the heading by [travel speed frame]. *)
Lemma triangle_branch_spec (direction : string) (dd speed : Z) (v : vertices) :
  In direction directions -> valid_quadrant dd ->
  exists func code,
    triangle_branch direction v speed dd = Some (func, code) /\
    forall frame, exists a b c,
      func frame = inr (TrianglePose a b c) /\
      let move := shifted (heading direction dd) (travel speed frame) in
      point_eq a (move (vx1 v, vy1 v)) /\
      point_eq b (move (vx2 v, vy2 v)) /\
      point_eq c (move (vx3 v, vy3 v)).
Proof.
  intros Hd Hq. destruct v as [x1 y1 x2 y2 x3 y3].
  pick_direction Hd; [| | | | pick_quadrant Hq];
    (do 2 eexists; split; [reflexivity |]);
    intros frame; (do 3 eexists; split; [reflexivity |]);
    unfold point_eq, shifted;
    cbn [fst snd heading String.eqb Ascii.eqb Bool.eqb Z.eqb Pos.eqb
         vx1 vy1 vx2 vy2 vx3 vy3];
    literal_Q; repeat split; ring.
Qed.

(* ================================================================== *)
(** ** The trajectory as a translation *)

Lemma trajectory_shift (start : pose) (direction : string) (dd speed frame : Z) :
  In direction directions -> valid_quadrant dd ->
  exists q,
    trajectory start direction dd speed frame = Some (inr q) /\
    let h := heading direction dd in
    pose_eq q (translate (inject_Z (fst h) * travel speed frame)
                         (inject_Z (snd h) * travel speed frame) start).
Proof.
  intros Hd Hq. destruct start as [[x0 y0] | [x1 y1] [x2 y2] [x3 y3]].
  - destruct (circle_branch_spec direction dd speed x0 y0 Hd Hq)
      as (func & code & E & Hf).
    destruct (Hf frame) as (c & Ec & Hc).
    exists (CirclePose c). cbn [trajectory]. rewrite E. cbn [option_map fst].
    rewrite Ec. split; [reflexivity | exact Hc].
  - destruct (triangle_branch_spec direction dd speed
                {| vx1 := x1; vy1 := y1; vx2 := x2; vy2 := y2;
                   vx3 := x3; vy3 := y3 |} Hd Hq)
      as (func & code & E & Hf).
    destruct (Hf frame) as (a & b & c & Ec & Hc).
    exists (TrianglePose a b c). cbn [trajectory]. rewrite E.
    cbn [option_map fst]. rewrite Ec. split; [reflexivity | exact Hc].
Qed.


(* ================================================================== *)
(** ** Starting inside the window keeps every frame on the canvas *)

Lemma heading_cases (direction : string) (dd : Z) :
  let h := heading direction dd in
  (fst h = -1 \/ fst h = 0 \/ fst h = 1)%Z /\
  (snd h = -1 \/ snd h = 0 \/ snd h = 1)%Z.
Proof.
  unfold heading.
  repeat match goal with
         | |- context [if ?b then _ else _] => destruct b
         end; cbn [fst snd]; lia.
Qed.

Lemma axis_on_canvas (h : Z) (x t : Q) :
  (h = -1 \/ h = 0 \/ h = 1)%Z ->
  (0 <= t <= 98)%Q ->
  (window_lo h <= x <= window_hi h)%Q ->
  (0 <= x + inject_Z h * t <= 256)%Q.
Proof.
  intros [-> | [-> | ->]] Ht Hx;
    unfold window_lo, window_hi in Hx; cbn [Z.ltb Z.compare] in Hx;
    literal_Q; lra.
Qed.

Lemma point_on_canvas (h : Z * Z) (t : Q) (p q : point) :
  (fst h = -1 \/ fst h = 0 \/ fst h = 1)%Z ->
  (snd h = -1 \/ snd h = 0 \/ snd h = 1)%Z ->
  (0 <= t <= 98)%Q ->
  (window_lo (fst h) <= fst p <= window_hi (fst h))%Q ->
  (window_lo (snd h) <= snd p <= window_hi (snd h))%Q ->
  point_eq q (shifted h t p) ->
  on_canvas q.
Proof.
  intros Hx Hy Ht Wx Wy [Ex Ey]. unfold on_canvas.
  cbn [shifted fst snd] in Ex, Ey. rewrite Ex, Ey.
  split; now apply axis_on_canvas.
Qed.

Lemma placement_circle_inv (radius : Z) (direction : string) (dd : Z)
    (w w' : world) (start : pose) :
  placement (CircleSpec radius) direction dd w = Ok start w' ->
  exists p, setpositioncircle direction radius dd w = Ok p w' /\
            start = CirclePose p.
Proof.
  unfold placement, bind, ret.
  destruct (setpositioncircle direction radius dd w) as [p w1 | e w1];
    [| discriminate].
  intros [= <- <-]. now exists p.
Qed.

Lemma placement_triangle_inv (base height : Z) (direction : string) (dd : Z)
    (w w' : world) (start : pose) :
  placement (TriangleSpec base height) direction dd w = Ok start w' ->
  exists v, setpositiontriangle direction base height dd w = Ok v w' /\
            start = start_pose v.
Proof.
  unfold placement, bind, ret.
  destruct (setpositiontriangle direction base height dd w) as [v w1 | e w1];
    [| discriminate].
  intros [= <- <-]. now exists v.
Qed.

(** Every shape that is placed starts inside the window of its heading. *)
Lemma placement_window (s : ShapeSpec) (direction : string) (dd : Z)
    (w w' : world) (start : pose) :
  valid_shape s -> In direction directions -> valid_quadrant dd ->
  placement s direction dd w = Ok start w' ->
  let h := heading direction dd in
  let inside := fun p : point =>
    (window_lo (fst h) <= fst p <= window_hi (fst h))%Q /\
    (window_lo (snd h) <= snd p <= window_hi (snd h))%Q in
  match start with
  | CirclePose c => inside c
  | TrianglePose v1 v2 v3 => inside v1 /\ inside v2 /\ inside v3
  end.
Proof.
  intros Hs Hd Hq H. destruct s as [radius | base height]; cbn [valid_shape] in Hs.
  - apply placement_circle_inv in H as (p & E & ->).
    pose proof (circle_start_window _ _ _ _ _ _ Hd Hq Hs E) as [Hx Hy].
    cbv zeta in Hx, Hy |- *. unfold valid_radius in Hs.
    rewrite !Zle_Qle in Hs. literal_Q. split; lra.
  - apply placement_triangle_inv in H as (v & E & ->).
    destruct Hs as [Hb Hh].
    destruct (setpositiontriangle_spec direction base height dd w Hd Hq Hb Hh)
      as (v' & E' & Hiso & Hwin).
    rewrite E in E'. injection E' as <- _.
    destruct v as [x1 y1 x2 y2 x3 y3].
    unfold valid_side in Hb, Hh. rewrite !Zle_Qle in Hb, Hh.
    cbn [isosceles start_pose vx1 vy1 vx2 vy2 vx3 vy3] in Hiso, Hwin |- *.
    cbv zeta in Hwin |- *. cbn [fst snd].
    destruct Hiso as (E2 & E3 & E4 & E5).
    destruct Hwin as (W1 & W2 & W3 & W4).
    unfold Qdiv in E4. change (/ 2)%Q with (1 # 2)%Q in E4.
    literal_Q. repeat split; lra.
Qed.


Lemma pose_eq_translate_zero (q p : pose) (dx dy : Q) :
  (dx == 0)%Q -> (dy == 0)%Q ->
  pose_eq q (translate dx dy p) -> pose_eq q p.
Proof.
  intros Ex Ey.
  destruct q as [c | a1 a2 a3], p as [d | b1 b2 b3];
    cbn [pose_eq translate]; unfold point_eq; cbn [fst snd];
    trivial; rewrite Ex, Ey, !Qplus_0_r; trivial.
Qed.


(* ================================================================== *)
(** ** Properties of placement and trajectory *)

(** C1.  For every valid circle or triangle, every direction among right,
    left, up, down and diagonal, every diagonal quadrant, every speed in
    [20,100] and every frame in [0,49]: the trajectory evaluator, applied
    at that frame to the starting pose that the placement solver produced,
    returns a pose, and every coordinate of every vertex of that pose lies
    in [0,256]. *)
Theorem frames_on_canvas (s : ShapeSpec) (direction : string)
    (dd speed frame : Z) (w w' : world) (start : pose) :
  valid_shape s -> In direction directions -> valid_quadrant dd ->
  valid_speed speed -> valid_frame frame ->
  placement s direction dd w = Ok start w' ->
  exists q, trajectory start direction dd speed frame = Some (inr q) /\
            pose_on_canvas q.
Proof.
  intros Hs Hd Hq Hsp Hf H.
  destruct (trajectory_shift start direction dd speed frame Hd Hq)
    as (q & E & Hq').
  exists q. split; [exact E |].
  pose proof (placement_window s direction dd w w' start Hs Hd Hq H) as Hw.
  pose proof (heading_cases direction dd) as [Hx Hy].
  pose proof (travel_bounds speed frame Hsp Hf) as Ht.
  cbv zeta in Hq', Hw, Hx, Hy.
  destruct start as [c | v1 v2 v3], q as [d | u1 u2 u3];
    cbn [pose_eq translate] in Hq'; try contradiction;
    cbn [pose_on_canvas].
  - destruct Hw as [Wx Wy].
    exact (point_on_canvas _ _ c d Hx Hy Ht Wx Wy Hq').
  - destruct Hw as ([W1x W1y] & [W2x W2y] & [W3x W3y]).
    destruct Hq' as (E1 & E2 & E3).
    repeat split.
    all: first [ apply (point_on_canvas _ _ v1 u1 Hx Hy Ht W1x W1y E1)
               | apply (point_on_canvas _ _ v2 u2 Hx Hy Ht W2x W2y E2)
               | apply (point_on_canvas _ _ v3 u3 Hx Hy Ht W3x W3y E3) ].
Qed.

Lemma frames_on_canvas_witness :
  exists q,
    trajectory (CirclePose (7750 # 100, 12800 # 100)%Q) "right" 1 100 49
      = Some (inr q) /\
    pose_on_canvas q.
Proof.
  apply (frames_on_canvas (CircleSpec 20) "right" 1 100 49
                          w_half (advance (advance w_half))).
  - cbn. unfold valid_radius. lia.
  - cbn. auto.
  - unfold valid_quadrant. lia.
  - unfold valid_speed. lia.
  - unfold valid_frame. lia.
  - reflexivity.
Defined.

(** C3.  The circle placement has an error path on its valid domain: for a
    circle that moves diagonally down and left (quadrant 3) it draws the
    first coordinate and then raises [NameError] on the name [size],
    whatever the radius and whatever the generator answers. *)
Theorem circle_down_left_raises (radius : Z) (w : world) :
  setpositioncircle "diagonal" radius 3 w
    = Raise (NameError "size") (advance w).
Proof.
  unfold setpositioncircle.
  cbn [String.eqb Ascii.eqb Bool.eqb Z.eqb Pos.eqb].
  unfold bind at 1.
  destruct (rand_coord_spec (256 - maxDistOver + radius) (256 - radius) w)
    as (x & E & _).
  rewrite E. reflexivity.
Qed.




(** C5.  For every valid circle or triangle, every direction and quadrant
    and every speed in [20,100]: the trajectory evaluator at frame 0
    returns exactly the starting pose that the placement solver
    produced. *)
Theorem frame_zero_is_start (s : ShapeSpec) (direction : string)
    (dd speed : Z) (w w' : world) (start : pose) :
  valid_shape s -> In direction directions -> valid_quadrant dd ->
  valid_speed speed ->
  placement s direction dd w = Ok start w' ->
  exists q, trajectory start direction dd speed 0 = Some (inr q) /\
            pose_eq q start.
Proof.
  intros _ Hd Hq _ _.
  destruct (trajectory_shift start direction dd speed 0 Hd Hq)
    as (q & E & Hs).
  exists q. split; [exact E |].
  cbv zeta in Hs.
  eapply pose_eq_translate_zero; [| | exact Hs];
    rewrite travel_zero; ring.
Qed.

Lemma frame_zero_is_start_witness :
  exists q,
    trajectory (TrianglePose (16350 # 100, 15850 # 100)%Q
                             (19350 # 100, 15850 # 100)%Q
                             (35700 # 200, 19850 # 100)%Q)
               "diagonal" 3 50 0 = Some (inr q) /\
    pose_eq q (TrianglePose (16350 # 100, 15850 # 100)%Q
                            (19350 # 100, 15850 # 100)%Q
                            (35700 # 200, 19850 # 100)%Q).
Proof.
  apply (frame_zero_is_start (TriangleSpec 30 40) "diagonal" 3 50
                             w_half (advance (advance w_half))).
  - cbn. unfold valid_side. lia.
  - cbn. auto 6.
  - unfold valid_quadrant. lia.
  - unfold valid_speed. lia.
  - reflexivity.
Defined.





(* ================================================================== *)
(** ** The driver and the command line *)

Lemma range_S (n : nat) :
  range (S n) = 0%Z :: map Z.of_nat (seq 1 n).
Proof. reflexivity. Qed.

Ltac run_first_pass n :=
  unfold main; cbn [args_iterations];
  let k := fresh "k" in
  destruct (Z.to_nat n) as [| k] eqn:?; [lia |];
  rewrite range_S; cbn [for_each]; unfold bind at 1 2;
  unfold loop_body;
  cbn [args_iterations args_shape args_direction args_radius args_speed
       args_base args_triheight args_rectwidth args_rectheight].

Ltac show_pinned :=
  unfold pinned;
  cbn [args_direction args_radius args_speed args_base args_triheight];
  repeat first
    [ left; split; [reflexivity | solve [discriminate | assumption]]
    | split; [reflexivity | solve [discriminate | assumption]]
    | right ].

Lemma pinned_circle_aborts (ROOT : string) (args : Namespace) (w : world) :
  (0 < args_iterations args)%Z ->
  args_shape args = Some "circle" ->
  args_direction args <> None \/ args_radius args <> 0%Z \/
    args_speed args <> 0%Z ->
  exists name w',
    main ROOT args w = Raise (UnboundLocalError name) w' /\
    pinned args name /\ saved w' = saved w.
Proof.
  destruct args as [n shape radius rw rh base th direction speed].
  cbn [args_iterations args_shape args_direction args_radius args_speed].
  intros Hn -> Hpin. run_first_pass n.
  destruct direction as [d |];
    destruct (Z.eqb_spec radius 0), (Z.eqb_spec speed 0);
    try (exfalso; destruct Hpin as [H | [H | H]]; now apply H);
    destruct (base =? 0)%Z, (th =? 0)%Z, (rw =? 0)%Z, (rh =? 0)%Z;
    (do 2 eexists; split; [reflexivity | split; [show_pinned | reflexivity]]).
Qed.

Lemma pinned_triangle_aborts (ROOT : string) (args : Namespace) (w : world) :
  (0 < args_iterations args)%Z ->
  args_shape args = Some "triangle" ->
  args_direction args <> None \/ args_base args <> 0%Z \/
    args_triheight args <> 0%Z \/ args_speed args <> 0%Z ->
  exists name w',
    main ROOT args w = Raise (UnboundLocalError name) w' /\
    pinned args name /\ saved w' = saved w.
Proof.
  destruct args as [n shape radius rw rh base th direction speed].
  cbn [args_iterations args_shape args_direction args_base args_triheight
       args_speed].
  intros Hn -> Hpin. run_first_pass n.
  destruct direction as [d |];
    destruct (Z.eqb_spec base 0), (Z.eqb_spec th 0), (Z.eqb_spec speed 0);
    try (exfalso; destruct Hpin as [H | [H | [H | H]]]; now apply H);
    destruct (radius =? 0)%Z, (rw =? 0)%Z, (rh =? 0)%Z;
    (do 2 eexists; split; [reflexivity | split; [show_pinned | reflexivity]]).
Qed.

(** C2.  A caller-supplied value does not reach the shape functions.
    [main] assigns its locals [direction], [radius], [base], [triheight],
    [speed] only under the "randomize" flags and never from [args]; when
    the caller supplies one that the chosen shape needs, the first run
    stops at the call of [circle] or [triangle] with [UnboundLocalError]
    for a supplied parameter, and nothing is placed or saved. *)
Theorem pinned_parameter_aborts (ROOT : string) (args : Namespace)
    (w : world) :
  (0 < args_iterations args)%Z ->
  (args_shape args = Some "circle" /\
   (args_direction args <> None \/ args_radius args <> 0%Z \/
    args_speed args <> 0%Z)) \/
  (args_shape args = Some "triangle" /\
   (args_direction args <> None \/ args_base args <> 0%Z \/
    args_triheight args <> 0%Z \/ args_speed args <> 0%Z)) ->
  exists name w',
    main ROOT args w = Raise (UnboundLocalError name) w' /\
    pinned args name /\ saved w' = saved w.
Proof.
  intros Hn [[Hs Hp] | [Hs Hp]].
  - now apply pinned_circle_aborts.
  - now apply pinned_triangle_aborts.
Qed.

Lemma pinned_parameter_aborts_witness :
  exists name w',
    main "data" args_radius_20 w_half = Raise (UnboundLocalError name) w' /\
    pinned args_radius_20 name /\ saved w' = saved w_half.
Proof.
  apply (pinned_parameter_aborts "data" args_radius_20 w_half).
  - cbn. lia.
  - left. split; [reflexivity |]. right. left. cbn. lia.
Defined.

(** A pass of the loop for a rectangle draws its parameters and returns
    without saving anything. *)
Lemma loop_body_rectangle (ROOT : string) (args : Namespace) (i : Z)
    (l : locals) (w : world) :
  args_shape args = Some "rectangle" ->
  exists l' w',
    loop_body ROOT args i l w = Ok l' w' /\ saved w' = saved w.
Proof.
  destruct args as [n shape radius rw rh base th direction speed].
  cbn [args_shape]. intros ->.
  unfold loop_body.
  cbn [args_iterations args_shape args_direction args_radius args_speed
       args_base args_triheight args_rectwidth args_rectheight].
  destruct direction as [d |];
    destruct (radius =? 0)%Z, (speed =? 0)%Z, (base =? 0)%Z, (th =? 0)%Z,
             (rw =? 0)%Z, (rh =? 0)%Z;
    (do 2 eexists; split; reflexivity).
Qed.

Lemma for_each_rectangle (ROOT : string) (args : Namespace)
    (indices : list Z) (l : locals) (w : world) :
  args_shape args = Some "rectangle" ->
  exists l' w',
    for_each (loop_body ROOT args) indices l w = Ok l' w' /\
    saved w' = saved w.
Proof.
  intros Hs. revert l w.
  induction indices as [| i rest IH]; intros l w.
  - exists l, w. now split.
  - destruct (loop_body_rectangle ROOT args i l w Hs) as (l1 & w1 & E1 & S1).
    destruct (IH l1 w1) as (l2 & w2 & E2 & S2).
    exists l2, w2. cbn [for_each]. unfold bind at 1. rewrite E1.
    split; [exact E2 | congruence].
Qed.

(** C9.  A run whose shape is a rectangle produces no artifact and reports
    nothing: whatever the other arguments and however many iterations,
    [main] returns normally and the saved artifacts are those it started
    with.  [main] dispatches on "circle" and "triangle" only. *)
Theorem rectangle_saves_nothing (ROOT : string) (args : Namespace)
    (w : world) :
  args_shape args = Some "rectangle" ->
  exists w', main ROOT args w = Ok tt w' /\ saved w' = saved w.
Proof.
  intros Hs. unfold main.
  destruct (for_each_rectangle ROOT args
              (range (Z.to_nat (args_iterations args))) unbound w Hs)
    as (l' & w' & E & S').
  exists w'. unfold bind. rewrite E. now split.
Qed.

Lemma rectangle_saves_nothing_witness :
  exists w',
    main "data" args_rectangle w_half = Ok tt w' /\ saved w' = saved w_half.
Proof.
  apply (rectangle_saves_nothing "data" args_rectangle w_half).
  reflexivity.
Defined.

Lemma int_option_accepts (name : string) (lo hi : Z) (v : option Z) :
  (exists z, int_option name lo hi v = inr z) <->
  supplied_in lo (hi - 1) v.
Proof.
  unfold int_option, supplied_in, in_range. destruct v as [z |].
  - destruct (Z.leb_spec lo z), (Z.ltb_spec z hi); cbn [andb]; split.
    all: try (intros _ z' [= <-]; lia).
    all: try (intros [z' [=]]).
    all: try (intros H'; specialize (H' z eq_refl); lia).
    intros _. now exists z.
  - split; [intros _ z [=] | intros _; now exists 0%Z].
Qed.

Lemma in_choices_spec (choices : list string) (v : string) :
  in_choices choices v = true <-> In v choices.
Proof.
  unfold in_choices. rewrite existsb_exists. split.
  - intros (x & Hx & E). apply String.eqb_eq in E. now subst.
  - intros H. exists v. split; [exact H | apply String.eqb_refl].
Qed.

(** C7, as the code has it.  The parser accepts a command line exactly
    when the shape is one of circle, rectangle, triangle, every supplied
    size or speed is in its documented range (radius 10-77, rectangle and
    triangle sizes 10-75, speed 20-100) and the direction, if supplied, is
    one of the six values right, left, up, down, diagonal, bouncy; a
    command line that it rejects ends the script before [main] is
    entered, so before anything is drawn or saved. *)
Theorem parser_domains (ROOT : string) (cl : command_line) :
  ((exists args, parse_args cl = inr args) <->
   (exists s, cl_shape cl = Some s /\
              In s ["circle"; "rectangle"; "triangle"]) /\
   supplied_in 10 77 (cl_radius cl) /\
   supplied_in 10 75 (cl_rectwidth cl) /\
   supplied_in 10 75 (cl_rectheight cl) /\
   supplied_in 10 75 (cl_base cl) /\
   supplied_in 10 75 (cl_triheight cl) /\
   (forall d, cl_direction cl = Some d ->
              In d ["right"; "left"; "up"; "down"; "diagonal"; "bouncy"]) /\
   supplied_in 20 100 (cl_speed cl)) /\
  (forall e, parse_args cl = inl e ->
             forall w, script ROOT cl w = inl e).
Proof.
  split.
  2: { intros e E w. unfold script. now rewrite E. }
  destruct cl as [it shape radius rw rh base th direction speed].
  unfold parse_args.
  cbn [cl_iterations cl_shape cl_radius cl_rectwidth cl_rectheight cl_base
       cl_triheight cl_direction cl_speed].
  pose proof (int_option_accepts "radius" 10 78 radius) as Hr.
  pose proof (int_option_accepts "rectwidth" 10 76 rw) as Hrw.
  pose proof (int_option_accepts "rectheight" 10 76 rh) as Hrh.
  pose proof (int_option_accepts "base" 10 76 base) as Hb.
  pose proof (int_option_accepts "triheight" 10 76 th) as Hth.
  pose proof (int_option_accepts "speed" 20 101 speed) as Hs.
  cbn [Z.sub Z.add Z.opp Z.pos_sub Pos.pred_double Z.succ_double
       Z.pred_double Z.double] in Hr, Hrw, Hrh, Hb, Hth, Hs.
  assert (Hshape :
    match shape with
    | Some s => negb (in_choices shape_choices s) = false <->
                In s ["circle"; "rectangle"; "triangle"]
    | None => True
    end).
  { destruct shape as [s |]; [| exact I].
    rewrite negb_false_iff. apply in_choices_spec. }
  assert (Hdir :
    match direction with
    | Some d => in_choices direction_choices d = true <->
                In d ["right"; "left"; "up"; "down"; "diagonal"; "bouncy"]
    | None => True
    end).
  { destruct direction as [d |]; [| exact I]. apply in_choices_spec. }
  split.
  - intros [args E].
    destruct shape as [s |]; [| discriminate].
    destruct (negb (in_choices shape_choices s)) eqn:Es; [discriminate |].
    destruct (int_option "radius" 10 78 radius) eqn:E1; [discriminate |].
    destruct (int_option "rectwidth" 10 76 rw) eqn:E2; [discriminate |].
    destruct (int_option "rectheight" 10 76 rh) eqn:E3; [discriminate |].
    destruct (int_option "base" 10 76 base) eqn:E4; [discriminate |].
    destruct (int_option "triheight" 10 76 th) eqn:E5; [discriminate |].
    assert (Hd' : forall d, direction = Some d ->
                  In d ["right"; "left"; "up"; "down"; "diagonal"; "bouncy"]).
    { intros d ->.
      destruct (in_choices direction_choices d) eqn:Ed; [| discriminate].
      now apply Hdir. }
    assert (Hs' : exists z, int_option "speed" 20 101 speed = inr z).
    { destruct direction as [d |];
        [destruct (in_choices direction_choices d); [| discriminate] |];
        destruct (int_option "speed" 20 101 speed); [discriminate | | discriminate |];
        eauto. }
    split; [| split; [| split; [| split; [| split; [| split; [| split]]]]]].
    + exists s. split; [reflexivity | now apply Hshape].
    + apply Hr. eauto.
    + apply Hrw. eauto.
    + apply Hrh. eauto.
    + apply Hb. eauto.
    + apply Hth. eauto.
    + exact Hd'.
    + now apply Hs.
  - intros ((s & Es & Hin) & H1 & H2 & H3 & H4 & H5 & H6 & H7).
    subst shape. apply Hshape in Hin. rewrite Hin.
    apply Hr in H1 as [z1 ->]. apply Hrw in H2 as [z2 ->].
    apply Hrh in H3 as [z3 ->]. apply Hb in H4 as [z4 ->].
    apply Hth in H5 as [z5 ->]. apply Hs in H7 as [z7 E7].
    destruct direction as [d |].
    + specialize (H6 d eq_refl). apply Hdir in H6. rewrite H6, E7. eauto.
    + rewrite E7. eauto.
Qed.

(** C7, as the specification has it, fails: [-d bouncy] is accepted, and
    it is none of right, left, up, down, diagonal. *)
Lemma parser_accepts_bouncy :
  (exists args, parse_args cl_bouncy = inr args /\
                args_direction args = Some "bouncy") /\
  ~ In "bouncy" directions.
Proof.
  split.
  - eexists. split; reflexivity.
  - cbn. intros [H | [H | [H | [H | [H | []]]]]]; discriminate.
Qed.

(* ================================================================== *)
(** ** File names *)

Lemma append_assoc (a b c : string) : (a ++ b) ++ c = a ++ b ++ c.
Proof. induction a as [| x a IH]; cbn; [reflexivity | now rewrite IH]. Qed.

Lemma append_inv_head (a b c : string) : a ++ b = a ++ c -> b = c.
Proof.
  induction a as [| x a IH]; cbn; [trivial |]. intros [= H]. now apply IH.
Qed.

Lemma all_digits_app (a b : string) :
  all_digits a = true -> all_digits b = true -> all_digits (a ++ b) = true.
Proof.
  induction a as [| x a IH]; cbn; [trivial |].
  intros [Hx Ha]%andb_prop Hb. now rewrite Hx, IH.
Qed.

Lemma all_digits_zeros (n : nat) : all_digits (zeros n) = true.
Proof. induction n as [| n IH]; cbn; [reflexivity | exact IH]. Qed.

Lemma all_digits_uint (d : Decimal.uint) :
  all_digits (NilEmpty.string_of_uint d) = true.
Proof. induction d; cbn; trivial. Qed.

Lemma str_nonneg (z : Z) :
  (0 <= z)%Z ->
  exists d, str z = NilEmpty.string_of_uint d /\ Z.of_uint d = z.
Proof.
  intros Hz. destruct z as [| p | p]; [| | lia].
  - exists (Decimal.D0 Decimal.Nil). now split.
  - exists (Pos.to_uint p). split.
    + unfold str. cbn [Z.to_int NilZero.string_of_int].
      pose proof (Unsigned.to_uint_nonnil p) as Hn.
      unfold NilZero.string_of_uint.
      destruct (Pos.to_uint p); [now destruct Hn | reflexivity ..].
    + unfold Z.of_uint. now rewrite Unsigned.of_to.
Qed.

Lemma all_digits_str (z : Z) : (0 <= z)%Z -> all_digits (str z) = true.
Proof.
  intros Hz. destruct (str_nonneg z Hz) as (d & -> & _).
  apply all_digits_uint.
Qed.

Lemma digits_value_str (z : Z) : (0 <= z)%Z -> digits_value (str z) = Some z.
Proof.
  intros Hz. destruct (str_nonneg z Hz) as (d & -> & E).
  unfold digits_value. rewrite NilEmpty.usu. cbn. now rewrite E.
Qed.

Lemma digits_value_zeros (n : nat) (s : string) :
  digits_value (zeros n ++ s) = digits_value s.
Proof.
  induction n as [| n IH]; [reflexivity |].
  cbn [zeros append]. rewrite <- IH. unfold digits_value.
  cbn [NilEmpty.uint_of_string].
  destruct (NilEmpty.uint_of_string (zeros n ++ s)); reflexivity.
Qed.

Lemma format_03_nonneg (i : Z) :
  (0 <= i)%Z ->
  all_digits (format_03 i) = true /\ digits_value (format_03 i) = Some i.
Proof.
  intros Hi. unfold format_03.
  destruct (Z.ltb_spec i 0); [lia |]. unfold zfill. split.
  - apply all_digits_app; [apply all_digits_zeros | now apply all_digits_str].
  - rewrite digits_value_zeros. now apply digits_value_str.
Qed.

(** A run of digits that is followed by something else ends in one place
    only. *)
Lemma digit_run_unique (d1 d2 r1 r2 : string) :
  all_digits d1 = true -> all_digits d2 = true ->
  no_leading_digit r1 = true -> no_leading_digit r2 = true ->
  d1 ++ r1 = d2 ++ r2 -> d1 = d2 /\ r1 = r2.
Proof.
  revert d2. induction d1 as [| x d1 IH]; intros [| y d2]; cbn.
  - now intros _ _ _ _ ->.
  - intros _ [Hy _]%andb_prop H1 _ ->. cbn in H1. now rewrite Hy in H1.
  - intros [Hx _]%andb_prop _ _ H2 <-. cbn in H2. now rewrite Hx in H2.
  - intros [_ H1]%andb_prop [_ H2]%andb_prop N1 N2 [= -> E].
    destruct (IH d2 H1 H2 N1 N2 E) as [-> ->]. now split.
Qed.

Lemma number_then (z1 z2 : Z) (r1 r2 : string) :
  (0 <= z1)%Z -> (0 <= z2)%Z ->
  no_leading_digit r1 = true -> no_leading_digit r2 = true ->
  str z1 ++ r1 = str z2 ++ r2 -> z1 = z2 /\ r1 = r2.
Proof.
  intros H1 H2 N1 N2 E.
  destruct (digit_run_unique (str z1) (str z2) r1 r2) as [Ed Er];
    auto using all_digits_str.
  split; [| exact Er].
  pose proof (digits_value_str z1 H1) as V1.
  pose proof (digits_value_str z2 H2) as V2.
  rewrite Ed in V1. congruence.
Qed.

Lemma index_then (i1 i2 : Z) (r1 r2 : string) :
  (0 <= i1)%Z -> (0 <= i2)%Z ->
  no_leading_digit r1 = true -> no_leading_digit r2 = true ->
  format_03 i1 ++ r1 = format_03 i2 ++ r2 -> i1 = i2 /\ r1 = r2.
Proof.
  intros H1 H2 N1 N2 E.
  destruct (format_03_nonneg i1 H1) as [D1 V1].
  destruct (format_03_nonneg i2 H2) as [D2 V2].
  destruct (digit_run_unique _ _ r1 r2 D1 D2 N1 N2 E) as [Ed Er].
  split; [| exact Er]. rewrite Ed in V1. congruence.
Qed.

Lemma code_speed_then (d1 d2 : string) (sp1 sp2 : Z) :
  In d1 directions -> In d2 directions -> (0 <= sp1)%Z -> (0 <= sp2)%Z ->
  direction_code d1 ++ "-" ++ str sp1 ++ ".gif"
    = direction_code d2 ++ "-" ++ str sp2 ++ ".gif" ->
  d1 = d2 /\ sp1 = sp2.
Proof.
  intros H1 H2 P1 P2.
  pick_direction H1; pick_direction H2;
    cbn [direction_code String.eqb Ascii.eqb Bool.eqb append];
    intros E; try discriminate E;
    injection E as E;
    apply number_then in E as [-> _]; auto.
Qed.

Lemma documented_name_inj (r1 r2 : run) :
  valid_run r1 -> valid_run r2 ->
  documented_name r1 = documented_name r2 -> r1 = r2.
Proof.
  destruct r1 as [i1 s1 d1 sp1], r2 as [i2 s2 d2 sp2].
  unfold valid_run, documented_name, valid_speed.
  cbn [run_index run_shape run_direction run_speed].
  intros (Hi1 & Hs1 & Hd1 & Hsp1) (Hi2 & Hs2 & Hd2 & Hsp2) E.
  apply index_then in E as [-> E]; trivial.
  destruct s1 as [r1 | b1 h1], s2 as [r2 | b2 h2];
    cbn [valid_shape] in Hs1, Hs2; unfold valid_radius, valid_side in *;
    cbn [shape_code size_params] in E;
    rewrite ?append_assoc in E; cbn [append] in E;
    try discriminate E; injection E as E.
  - apply number_then in E as [-> E]; trivial; try lia.
    injection E as E.
    apply code_speed_then in E as [-> ->]; trivial; lia.
  - apply number_then in E as [-> E]; trivial; try lia.
    injection E as E.
    apply number_then in E as [-> E]; trivial; try lia.
    injection E as E.
    apply code_speed_then in E as [-> ->]; trivial; lia.
Qed.

Lemma artifact_name_documented (ROOT : string) (r : run) :
  In (run_direction r) directions ->
  artifact_name ROOT r = Some (ROOT ++ "\" ++ documented_name r).
Proof.
  destruct r as [i s d sp]. cbn [run_direction]. intros Hd.
  unfold artifact_name, documented_name.
  cbn [run_index run_shape run_direction run_speed].
  destruct s as [radius | base height]; pick_direction Hd;
    cbn [circle_branch triangle_branch from_left_vertex option_map snd
         String.eqb Ascii.eqb Bool.eqb direction_code shape_code size_params];
    unfold circle_filename, triangle_filename;
    rewrite ?append_assoc; reflexivity.
Qed.



(* ================================================================== *)
(** ** What a run saves *)

Lemma draw_all (func : Z -> result pose) (frames : list Z) :
  (forall f, exists p, func f = inr p) ->
  exists ps, draw func frames = inr ps /\
             Forall2 (fun f p => func f = inr p) frames ps.
Proof.
  intros Hf. induction frames as [| f fs (ps & E & IH)].
  - exists []. split; [reflexivity | constructor].
  - destruct (Hf f) as (p & Ep). exists (p :: ps).
    cbn [draw]. rewrite Ep, E. split; [reflexivity | now constructor].
Qed.

Lemma circle_branch_code (direction : string) (x0 y0 x0' y0' : Q)
    (speed dd speed' dd' : Z) (func : Z -> result pose) (code : string) :
  circle_branch direction x0 y0 speed dd = Some (func, code) ->
  exists func',
    circle_branch direction x0' y0' speed' dd' = Some (func', code).
Proof.
  unfold circle_branch.
  repeat match goal with
         | |- context [if ?b then _ else _] => destruct b
         end; intros [= <- <-]; eauto.
Qed.

Lemma triangle_branch_code (direction : string) (v v' : vertices)
    (speed dd speed' dd' : Z) (func : Z -> result pose) (code : string) :
  triangle_branch direction v speed dd = Some (func, code) ->
  exists func',
    triangle_branch direction v' speed' dd' = Some (func', code).
Proof.
  unfold triangle_branch. destruct v, v'.
  repeat match goal with
         | |- context [if ?b then _ else _] => destruct b
         end; intros [= <- <-]; eauto.
Qed.

(** Once a circle is placed, [circle] saves exactly one artifact: the 50
    poses of the trajectory from the placed centre, in frame order, at 25
    frames per second, under the name of the run. *)
Lemma circle_saves (ROOT direction : string) (radius speed i dd : Z)
    (w w1 : world) (p : point) :
  In direction directions -> valid_quadrant dd ->
  setpositioncircle direction radius dd w = Ok p w1 ->
  exists name ps,
    circle ROOT direction radius speed i dd w
      = Ok tt {| tape := tape w1; cursor := cursor w1;
                 saved := saved w1 ++
                   [{| art_path := name; art_fps := 25;
                       art_frames := ps |}] |} /\
    artifact_name ROOT {| run_index := i; run_shape := CircleSpec radius;
                          run_direction := direction; run_speed := speed |}
      = Some name /\
    Forall2 (fun f q => trajectory (CirclePose p) direction dd speed f
                        = Some (inr q)) (range 50) ps.
Proof.
  intros Hd Hq Hp. destruct p as [x0 y0].
  destruct (circle_branch_spec direction dd speed x0 y0 Hd Hq)
    as (func & code & E & Hf).
  destruct (draw_all func (range 50)) as (ps & Ed & Hall).
  { intros f. destruct (Hf f) as (c & Ec & _). eauto. }
  exists (circle_filename ROOT i radius code speed), ps.
  split; [| split].
  - unfold circle, bind. rewrite Hp, E. unfold save.
    cbn [ani_func ani_frames]. now rewrite Ed.
  - unfold artifact_name. cbn [run_shape run_direction run_speed run_index].
    destruct (circle_branch_code direction x0 y0 0 0 speed dd speed 0
                                 func code E) as (func' & ->).
    reflexivity.
  - apply Forall2_impl with (2 := Hall). intros f q Efq.
    cbn [trajectory]. rewrite E. cbn [option_map fst]. now rewrite Efq.
Qed.

(** A triangle is always placed, and [triangle] saves exactly one artifact
    of 50 poses for it. *)
Lemma triangle_saves (ROOT direction : string) (base height speed i dd : Z)
    (w : world) :
  In direction directions -> valid_quadrant dd ->
  valid_side base -> valid_side height ->
  exists v name ps,
    setpositiontriangle direction base height dd w
      = Ok v (advance (advance w)) /\
    triangle ROOT direction base height speed i dd w
      = Ok tt {| tape := tape w; cursor := S (S (cursor w));
                 saved := saved w ++
                   [{| art_path := name; art_fps := 25;
                       art_frames := ps |}] |} /\
    artifact_name ROOT {| run_index := i;
                          run_shape := TriangleSpec base height;
                          run_direction := direction; run_speed := speed |}
      = Some name /\
    Forall2 (fun f q => trajectory (start_pose v) direction dd speed f
                        = Some (inr q)) (range 50) ps.
Proof.
  intros Hd Hq Hb Hh.
  destruct (setpositiontriangle_spec direction base height dd w Hd Hq Hb Hh)
    as (v & Hp & _).
  destruct (triangle_branch_spec direction dd speed v Hd Hq)
    as (func & code & E & Hf).
  destruct (draw_all func (range 50)) as (ps & Ed & Hall).
  { intros f. destruct (Hf f) as (a & b & c & Ec & _). eauto. }
  exists v, (triangle_filename ROOT i base height code speed), ps.
  split; [exact Hp | split; [| split]].
  - unfold triangle, bind. rewrite Hp, E. unfold save.
    cbn [ani_func ani_frames]. now rewrite Ed.
  - unfold artifact_name. cbn [run_shape run_direction run_speed run_index].
    destruct (triangle_branch_code direction v (from_left_vertex 0 0 0 0)
                                   speed dd speed 0 func code E)
      as (func' & ->).
    reflexivity.
  - apply Forall2_impl with (2 := Hall). intros f q Efq.
    destruct v as [x1 y1 x2 y2 x3 y3].
    cbn [trajectory start_pose vx1 vy1 vx2 vy2 vx3 vy3].
    rewrite E. cbn [option_map fst]. now rewrite Efq.
Qed.

(* ================================================================== *)
(** ** Runs of the driver that complete *)

Lemma returns_ret {A} (Pre : world -> Prop) (a : A)
    (Post : A -> world -> Prop) :
  (forall w, Pre w -> Post a w) -> returns Pre (ret a) Post.
Proof. intros H w Hw. exists a, w. split; [reflexivity | now apply H]. Qed.

Lemma returns_bind {A B} (Pre : world -> Prop) (c : M A) (k : A -> M B)
    (Mid : A -> world -> Prop) (Post : B -> world -> Prop) :
  returns Pre c Mid ->
  (forall a, returns (Mid a) (k a) Post) ->
  returns Pre (bind c k) Post.
Proof.
  intros Hc Hk w Hw. destruct (Hc w Hw) as (a & w1 & E1 & H1).
  destruct (Hk a w1 H1) as (b & w2 & E2 & H2).
  exists b, w2. unfold bind. rewrite E1. now split.
Qed.

Lemma returns_randint (s0 : list artifact) (a b : Z) :
  (a <= b)%Z ->
  returns (fun w => saved w = s0) (randint a b)
          (fun k w => saved w = s0 /\ (a <= k <= b)%Z).
Proof.
  intros Hab w Hw. unfold randint, randbelow, next_raw, bind, ret.
  do 2 eexists. split; [reflexivity |]. split; [exact Hw |].
  pose proof (Z.mod_pos_bound (Z.of_N (tape w (cursor w))) (b - a + 1)).
  lia.
Qed.

Lemma returns_choice (s0 : list artifact) (seq : list string) :
  seq <> [] ->
  returns (fun w => saved w = s0) (choice seq)
          (fun x w => saved w = s0 /\ In x seq).
Proof.
  intros Hne w Hw. unfold choice, randbelow, next_raw, bind, ret.
  do 2 eexists. split; [reflexivity |]. split; [exact Hw |].
  apply nth_In.
  assert (Hlen : (0 < Z.of_nat (List.length seq))%Z).
  { destruct seq; [contradiction | cbn [List.length]; lia]. }
  pose proof (Z.mod_pos_bound (Z.of_N (tape w (cursor w))) _ Hlen).
  lia.
Qed.

(** An assignment under a "randomize" flag: the variable is bound to a
    value of the range when the flag is set, and keeps its state when it
    is not. *)
Lemma returns_flagged (s0 : list artifact) (flag : bool) (lo hi : Z)
    (old : option Z) :
  (lo <= hi)%Z ->
  returns (fun w => saved w = s0)
          (if flag then r <- randint lo hi ;; ret (Some r) else ret old)
          (fun v w => saved w = s0 /\
                      (flag = true -> exists r, v = Some r /\
                                                (lo <= r <= hi)%Z)).
Proof.
  intros Hlh. destruct flag.
  - eapply returns_bind; [now apply returns_randint |].
    intros r. apply returns_ret. intros w [Hw Hr]. split; [exact Hw |].
    intros _. now exists r.
  - apply returns_ret. intros w Hw. split; [exact Hw | discriminate].
Qed.

(** With the shape set to triangle and nothing else that a triangle needs
    supplied, one pass of the loop saves exactly one full animation. *)
Lemma loop_body_triangle (ROOT : string) (args : Namespace) (i : Z)
    (l : locals) (s0 : list artifact) :
  args_shape args = Some "triangle" ->
  args_direction args = None -> args_base args = 0%Z ->
  args_triheight args = 0%Z -> args_speed args = 0%Z ->
  returns (fun w => saved w = s0) (loop_body ROOT args i l)
          (fun _ w => exists a, saved w = (s0 ++ [a])%list /\ full_animation a).
Proof.
  destruct args as [n shape radius rw rh base th direction speed].
  cbn [args_shape args_direction args_base args_triheight args_speed].
  intros -> -> -> -> ->. unfold loop_body.
  cbn [args_iterations args_shape args_direction args_radius args_speed
       args_base args_triheight args_rectwidth args_rectheight Z.eqb].
  (* direction *)
  eapply returns_bind with
    (Mid := fun v w => saved w = s0 /\
                       exists d, v = Some d /\ In d directions).
  { intros w Hw.
    destruct (returns_choice s0 directions ltac:(discriminate) w Hw)
      as (d & w1 & E & Hw1 & Hd).
    exists (Some d), w1. unfold bind, ret.
    change ["right"; "left"; "up"; "down"; "diagonal"] with directions.
    rewrite E. split; [reflexivity |]. split; [exact Hw1 | now exists d]. }
  intros direction'. cbv beta.
  (* radius *)
  eapply returns_bind with
    (Mid := fun (_ : option Z) w =>
              saved w = s0 /\
              exists d, direction' = Some d /\ In d directions).
  { intros w [Hw Hd].
    destruct (returns_flagged s0 (radius =? 0)%Z 10 77 (v_radius l)
                              ltac:(lia) w Hw) as (v & w1 & E & Hw1 & _).
    exists v, w1. split; [exact E | now split]. }
  intros radius'. cbv beta.
  (* base *)
  eapply returns_bind with
    (Mid := fun v w =>
              saved w = s0 /\
              (exists d, direction' = Some d /\ In d directions) /\
              exists b, v = Some b /\ valid_side b).
  { intros w [Hw Hd].
    destruct (returns_randint s0 10 75 ltac:(lia) w Hw)
      as (b & w1 & E & Hw1 & Hb).
    exists (Some b), w1. unfold bind, ret. rewrite E.
    split; [reflexivity |]. split; [exact Hw1 |].
    split; [exact Hd | now exists b]. }
  intros base'. cbv beta.
  (* triheight *)
  eapply returns_bind with
    (Mid := fun v w =>
              saved w = s0 /\
              (exists d, direction' = Some d /\ In d directions) /\
              (exists b, base' = Some b /\ valid_side b) /\
              exists h, v = Some h /\ valid_side h).
  { intros w (Hw & Hd & Hb).
    destruct (returns_randint s0 10 75 ltac:(lia) w Hw)
      as (h & w1 & E & Hw1 & Hh).
    exists (Some h), w1. unfold bind, ret. rewrite E.
    split; [reflexivity |]. split; [exact Hw1 |].
    split; [exact Hd |]. split; [exact Hb | now exists h]. }
  intros th'. cbv beta.
  (* rectWidth *)
  eapply returns_bind with
    (Mid := fun (_ : option Z) w =>
              saved w = s0 /\
              (exists d, direction' = Some d /\ In d directions) /\
              (exists b, base' = Some b /\ valid_side b) /\
              exists h, th' = Some h /\ valid_side h).
  { intros w (Hw & Hrest).
    destruct (returns_flagged s0 (rw =? 0)%Z 10 75 (v_rectWidth l)
                              ltac:(lia) w Hw) as (v & w1 & E & Hw1 & _).
    exists v, w1. split; [exact E | now split]. }
  intros rw'. cbv beta.
  (* rectHeight *)
  eapply returns_bind with
    (Mid := fun (_ : option Z) w =>
              saved w = s0 /\
              (exists d, direction' = Some d /\ In d directions) /\
              (exists b, base' = Some b /\ valid_side b) /\
              exists h, th' = Some h /\ valid_side h).
  { intros w (Hw & Hrest).
    destruct (returns_flagged s0 (rh =? 0)%Z 10 75 (v_rectHeight l)
                              ltac:(lia) w Hw) as (v & w1 & E & Hw1 & _).
    exists v, w1. split; [exact E | now split]. }
  intros rh'. cbv beta.
  (* speed *)
  eapply returns_bind with
    (Mid := fun v w =>
              saved w = s0 /\
              ((exists d, direction' = Some d /\ In d directions) /\
               (exists b, base' = Some b /\ valid_side b) /\
               exists h, th' = Some h /\ valid_side h) /\
              exists sp : Z, v = Some sp).
  { intros w (Hw & Hrest).
    destruct (returns_randint s0 20 100 ltac:(lia) w Hw)
      as (sp & w1 & E & Hw1 & _).
    exists (Some sp), w1. unfold bind, ret. rewrite E.
    split; [reflexivity |]. split; [exact Hw1 |].
    split; [exact Hrest | now exists sp]. }
  intros speed'. cbv beta.
  (* diagonalDirection *)
  eapply returns_bind with
    (Mid := fun q w =>
              saved w = s0 /\
              (((exists d, direction' = Some d /\ In d directions) /\
                (exists b, base' = Some b /\ valid_side b) /\
                exists h, th' = Some h /\ valid_side h) /\
               exists sp : Z, speed' = Some sp) /\
              valid_quadrant q).
  { intros w (Hw & Hrest).
    destruct (returns_randint s0 1 4 ltac:(lia) w Hw)
      as (q & w1 & E & Hw1 & Hq).
    exists q, w1. split; [exact E |]. split; [exact Hw1 | now split]. }
  intros q. cbv beta.
  (* the call of [triangle] *)
  intros w (Hw & (((d & -> & Hd) & (b & -> & Hb) & (h & -> & Hh)) & (sp & ->))
            & Hq).
  destruct (triangle_saves ROOT d b h sp i q w Hd Hq Hb Hh)
    as (v & name & ps & _ & E & _ & Hall).
  cbv beta iota delta [bind ret load].
  cbn [String.eqb Ascii.eqb Bool.eqb]. rewrite E.
  do 2 eexists. split; [reflexivity |].
  eexists. cbn [saved]. rewrite Hw. split; [reflexivity |].
  split; [| reflexivity]. cbn [art_frames].
  apply Forall2_length in Hall. rewrite <- Hall. reflexivity.
Qed.

(** A triangle run with nothing supplied completes: [main] returns after
    saving one full animation per iteration. *)
Lemma main_triangle_saves (ROOT : string) (args : Namespace) (w : world) :
  args_shape args = Some "triangle" ->
  args_direction args = None -> args_base args = 0%Z ->
  args_triheight args = 0%Z -> args_speed args = 0%Z ->
  exists w' arts,
    main ROOT args w = Ok tt w' /\
    saved w' = (saved w ++ arts)%list /\
    List.length arts = Z.to_nat (args_iterations args) /\
    Forall full_animation arts.
Proof.
  intros Hs Hd Hb Hh Hsp.
  assert (H : forall indices l w0,
             exists l' w' arts,
               for_each (loop_body ROOT args) indices l w0 = Ok l' w' /\
               saved w' = (saved w0 ++ arts)%list /\
               List.length arts = List.length indices /\
               Forall full_animation arts).
  { induction indices as [| i rest IH]; intros l w0.
    - exists l, w0, []. cbn. rewrite app_nil_r. auto.
    - destruct (loop_body_triangle ROOT args i l (saved w0)
                  Hs Hd Hb Hh Hsp w0 eq_refl)
        as (l1 & w1 & E1 & a & S1 & Ha).
      destruct (IH l1 w1) as (l2 & w2 & arts & E2 & S2 & Hlen & Hall).
      exists l2, w2, (a :: arts). cbn [for_each]. unfold bind at 1.
      rewrite E1. split; [exact E2 |]. split.
      + rewrite S2, S1, <- app_assoc. reflexivity.
      + split; [cbn; now rewrite Hlen | now constructor]. }
  destruct (H (range (Z.to_nat (args_iterations args))) unbound w)
    as (l' & w' & arts & E & S' & Hlen & Hall).
  exists w', arts. unfold main, bind. rewrite E.
  unfold range in Hlen. rewrite length_map, length_seq in Hlen. auto.
Qed.

(* ================================================================== *)
(** ** Further properties of the placement *)

Lemma axis_with_margin (h : Z) (x t m : Q) :
  (h = -1 \/ h = 0 \/ h = 1)%Z ->
  (0 <= t <= 98)%Q ->
  (window_lo h + m <= x <= window_hi h - m)%Q ->
  (m <= x + inject_Z h * t <= 256 - m)%Q.
Proof.
  intros [-> | [-> | ->]] Ht Hx;
    unfold window_lo, window_hi in Hx; cbn [Z.ltb Z.compare] in Hx;
    literal_Q; lra.
Qed.

(** X1.  The disc of a placed circle, not only its centre, is on the canvas in
    every frame: the centre keeps a distance of at least the radius from
    all four edges. *)
Theorem circle_disc_stays_on_canvas (direction : string)
    (radius dd speed frame : Z) (w w' : world) (p : point) :
  In direction directions -> valid_quadrant dd -> valid_radius radius ->
  valid_speed speed -> valid_frame frame ->
  setpositioncircle direction radius dd w = Ok p w' ->
  exists q, trajectory (CirclePose p) direction dd speed frame
              = Some (inr q) /\
            disc_on_canvas radius q.
Proof.
  intros Hd Hq Hr Hsp Hf H.
  destruct (trajectory_shift (CirclePose p) direction dd speed frame Hd Hq)
    as (q & E & Hs).
  exists q. split; [exact E |].
  pose proof (circle_start_window _ _ _ _ _ _ Hd Hq Hr H) as [Wx Wy].
  pose proof (heading_cases direction dd) as [Hx Hy].
  pose proof (travel_bounds speed frame Hsp Hf) as Ht.
  cbv zeta in Hs, Wx, Wy, Hx, Hy.
  destruct q as [[x y] | a b c]; cbn [pose_eq translate] in Hs;
    [| contradiction].
  destruct Hs as [Ex Ey]. cbn [fst snd] in Ex, Ey.
  cbn [disc_on_canvas]. rewrite Ex, Ey.
  split; now apply axis_with_margin.
Qed.

Lemma circle_disc_stays_on_canvas_witness :
  exists q, trajectory (CirclePose (7750 # 100, 12800 # 100)%Q)
                       "right" 1 100 49 = Some (inr q) /\
            disc_on_canvas 20 q.
Proof.
  apply (circle_disc_stays_on_canvas "right" 20 1 100 49
           w_half (advance (advance w_half))).
  - cbn. auto.
  - unfold valid_quadrant. lia.
  - unfold valid_radius. lia.
  - unfold valid_speed. lia.
  - unfold valid_frame. lia.
  - reflexivity.
Defined.



(** X3.  A placed circle starts with its whole disc inside the slack
    window of its heading: on an axis along which it will move in the
    positive sense the disc ends at 155 at most, on an axis along which it
    will move in the negative sense the disc begins at 101 at least, and on
    an axis along which it does not move the disc is anywhere on the
    canvas. *)
Theorem circle_starts_in_window (direction : string) (radius dd : Z)
    (w w' : world) (p : point) :
  In direction directions -> valid_quadrant dd -> valid_radius radius ->
  setpositioncircle direction radius dd w = Ok p w' ->
  (window_lo (fst (heading direction dd)) + inject_Z radius <= fst p
     <= window_hi (fst (heading direction dd)) - inject_Z radius)%Q /\
  (window_lo (snd (heading direction dd)) + inject_Z radius <= snd p
     <= window_hi (snd (heading direction dd)) - inject_Z radius)%Q.
Proof.
  intros Hd Hq Hr H.
  exact (circle_start_window direction radius dd w w' p Hd Hq Hr H).
Qed.

Lemma circle_starts_in_window_witness :
  (window_lo (fst (heading "down" 1)) + inject_Z 20
     <= fst (12800 # 100, 17850 # 100)%Q
     <= window_hi (fst (heading "down" 1)) - inject_Z 20)%Q /\
  (window_lo (snd (heading "down" 1)) + inject_Z 20
     <= snd (12800 # 100, 17850 # 100)%Q
     <= window_hi (snd (heading "down" 1)) - inject_Z 20)%Q.
Proof.
  apply (circle_starts_in_window "down" 20 1
           w_half (advance (advance w_half))).
  - cbn. auto.
  - unfold valid_quadrant. lia.
  - unfold valid_radius. lia.
  - vm_compute. reflexivity.
Defined.

(** X4.  A valid triangle is always placed, with exactly two draws from
    the generator, and the bounding box of the placed triangle (from x1 to
    x2, from y1 to y3) is inside the slack window of its heading. *)
Theorem triangle_starts_in_window (direction : string) (base height dd : Z)
    (w : world) :
  In direction directions -> valid_quadrant dd ->
  valid_side base -> valid_side height ->
  exists v,
    setpositiontriangle direction base height dd w
      = Ok v (advance (advance w)) /\
    (window_lo (fst (heading direction dd)) <= vx1 v /\
     vx2 v <= window_hi (fst (heading direction dd)) /\
     window_lo (snd (heading direction dd)) <= vy1 v /\
     vy3 v <= window_hi (snd (heading direction dd)))%Q.
Proof.
  intros Hd Hq Hb Hh.
  destruct (setpositiontriangle_spec direction base height dd w Hd Hq Hb Hh)
    as (v & E & _ & Hw).
  exists v. split; [exact E | exact Hw].
Qed.

Lemma triangle_starts_in_window_witness :
  exists v,
    setpositiontriangle "left" 30 40 1 w_half
      = Ok v (advance (advance w_half)) /\
    (window_lo (fst (heading "left" 1)) <= vx1 v /\
     vx2 v <= window_hi (fst (heading "left" 1)) /\
     window_lo (snd (heading "left" 1)) <= vy1 v /\
     vy3 v <= window_hi (snd (heading "left" 1)))%Q.
Proof.
  apply (triangle_starts_in_window "left" 30 40 1 w_half).
  - cbn. auto.
  - unfold valid_quadrant. lia.
  - unfold valid_side. lia.
  - unfold valid_side. lia.
Defined.

Lemma not_a_direction (direction : string) :
  ~ In direction directions ->
  (direction =? "right") = false /\ (direction =? "left") = false /\
  (direction =? "up") = false /\ (direction =? "down") = false /\
  (direction =? "diagonal") = false.
Proof.
  intros H. repeat split; apply String.eqb_neq; intros ->; apply H;
    cbn; auto 6.
Qed.

(** X5.  A direction outside right, left, up, down, diagonal (the parser
    admits "bouncy") is not reported by [circle]: it places the circle at
    (0, 0) without a draw, animates nothing, saves nothing and returns with
    the world as it was.  [triangle] stops at once with
    [UnboundLocalError], since [setpositiontriangle] returns vertices that
    no branch has assigned. *)
Theorem unknown_direction (ROOT direction : string)
    (radius base height speed i dd : Z) (w : world) :
  ~ In direction directions ->
  circle ROOT direction radius speed i dd w = Ok tt w /\
  triangle ROOT direction base height speed i dd w
    = Raise (UnboundLocalError "x1") w.
Proof.
  intros H. destruct (not_a_direction direction H) as (E1 & E2 & E3 & E4 & E5).
  split.
  - unfold circle, setpositioncircle, bind. rewrite E1, E2, E3, E4, E5.
    cbv [ret]. unfold circle_branch. now rewrite E1, E2, E3, E4, E5.
  - unfold triangle, setpositiontriangle, bind.
    now rewrite E1, E2, E3, E4, E5.
Qed.

Lemma unknown_direction_witness :
  circle "data" "bouncy" 20 100 0 1 w_used = Ok tt w_used /\
  triangle "data" "bouncy" 30 40 100 0 1 w_used
    = Raise (UnboundLocalError "x1") w_used.
Proof.
  apply (unknown_direction "data" "bouncy" 20 30 40 100 0 1 w_used).
  cbn. intros [H | [H | [H | [H | [H | []]]]]]; discriminate H.
Defined.

















(* ================================================================== *)
(** ** What the functions save *)

(** X10.  Once its circle is placed, [circle] saves exactly one file: it
    holds 50 poses, the trajectory of the placed centre at the frames
    0, 1, ..., 49 in this order, is written at 25 frames per second and is
    named after the run; the world is otherwise as the placement left
    it. *)
Theorem circle_saves_one (ROOT direction : string) (radius speed i dd : Z)
    (w w1 : world) (p : point) :
  In direction directions -> valid_quadrant dd ->
  setpositioncircle direction radius dd w = Ok p w1 ->
  exists name ps,
    circle ROOT direction radius speed i dd w
      = Ok tt {| tape := tape w1; cursor := cursor w1;
                 saved := saved w1 ++
                   [{| art_path := name; art_fps := 25;
                       art_frames := ps |}] |} /\
    artifact_name ROOT {| run_index := i; run_shape := CircleSpec radius;
                          run_direction := direction; run_speed := speed |}
      = Some name /\
    List.length ps = 50%nat /\
    Forall2 (fun f q => trajectory (CirclePose p) direction dd speed f
                        = Some (inr q)) (range 50) ps.
Proof.
  intros Hd Hq Hp.
  destruct (circle_saves ROOT direction radius speed i dd w w1 p Hd Hq Hp)
    as (name & ps & E & En & Hall).
  exists name, ps. repeat split; trivial.
  apply Forall2_length in Hall. now rewrite <- Hall.
Qed.

Lemma circle_saves_one_witness :
  exists name ps,
    circle "data" "right" 20 100 7 1 w_half
      = Ok tt {| tape := tape (advance (advance w_half));
                 cursor := cursor (advance (advance w_half));
                 saved := saved (advance (advance w_half)) ++
                   [{| art_path := name; art_fps := 25;
                       art_frames := ps |}] |} /\
    artifact_name "data" {| run_index := 7; run_shape := CircleSpec 20;
                            run_direction := "right"; run_speed := 100 |}
      = Some name /\
    List.length ps = 50%nat /\
    Forall2 (fun f q =>
               trajectory (CirclePose (7750 # 100, 12800 # 100)%Q)
                          "right" 1 100 f = Some (inr q)) (range 50) ps.
Proof.
  apply (circle_saves_one "data" "right" 20 100 7 1
           w_half (advance (advance w_half))).
  - cbn. auto.
  - unfold valid_quadrant. lia.
  - vm_compute. reflexivity.
Defined.

(** X11.  [triangle] never fails on a valid triangle: it places it with
    two draws and saves exactly one file of 50 poses, the trajectory of
    the placed vertices at the frames 0, ..., 49 in this order, at 25
    frames per second, named after the run. *)
Theorem triangle_saves_one (ROOT direction : string)
    (base height speed i dd : Z) (w : world) :
  In direction directions -> valid_quadrant dd ->
  valid_side base -> valid_side height ->
  exists v name ps,
    setpositiontriangle direction base height dd w
      = Ok v (advance (advance w)) /\
    triangle ROOT direction base height speed i dd w
      = Ok tt {| tape := tape w; cursor := S (S (cursor w));
                 saved := saved w ++
                   [{| art_path := name; art_fps := 25;
                       art_frames := ps |}] |} /\
    artifact_name ROOT {| run_index := i;
                          run_shape := TriangleSpec base height;
                          run_direction := direction; run_speed := speed |}
      = Some name /\
    List.length ps = 50%nat /\
    Forall2 (fun f q => trajectory (start_pose v) direction dd speed f
                        = Some (inr q)) (range 50) ps.
Proof.
  intros Hd Hq Hb Hh.
  destruct (triangle_saves ROOT direction base height speed i dd w
              Hd Hq Hb Hh) as (v & name & ps & Ep & E & En & Hall).
  exists v, name, ps. repeat split; trivial.
  apply Forall2_length in Hall. now rewrite <- Hall.
Qed.

Lemma triangle_saves_one_witness :
  exists v name ps,
    setpositiontriangle "up" 30 40 2 w_used
      = Ok v (advance (advance w_used)) /\
    triangle "data" "up" 30 40 50 12 2 w_used
      = Ok tt {| tape := tape w_used; cursor := S (S (cursor w_used));
                 saved := saved w_used ++
                   [{| art_path := name; art_fps := 25;
                       art_frames := ps |}] |} /\
    artifact_name "data" {| run_index := 12;
                            run_shape := TriangleSpec 30 40;
                            run_direction := "up"; run_speed := 50 |}
      = Some name /\
    List.length ps = 50%nat /\
    Forall2 (fun f q => trajectory (start_pose v) "up" 2 50 f
                        = Some (inr q)) (range 50) ps.
Proof.
  apply (triangle_saves_one "data" "up" 30 40 50 12 2 w_used).
  - cbn. auto.
  - unfold valid_quadrant. lia.
  - unfold valid_side. lia.
  - unfold valid_side. lia.
Defined.

(* ================================================================== *)
(** ** Batches *)

Lemma ends_bind {A B} (Pre : world -> Prop) (c : M A) (k : A -> M B)
    (Mid : A -> world -> Prop) (Post : B -> world -> Prop)
    (Err : exn -> world -> Prop) :
  returns Pre c Mid ->
  (forall a, ends (Mid a) (k a) Post Err) ->
  ends Pre (bind c k) Post Err.
Proof.
  intros Hc Hk w Hw. destruct (Hc w Hw) as (a & w1 & E1 & H1).
  unfold bind. rewrite E1. now apply Hk.
Qed.

(** One pass of the loop when nothing but the shape (and possibly the
    sizes of a rectangle) is supplied: every parameter is drawn from its
    documented range before the shape is dispatched. *)
Lemma loop_body_unpinned (ROOT : string) (args : Namespace) (shape : string)
    (i : Z) (l : locals) (s0 : list artifact)
    (Post : locals -> world -> Prop) (Err : exn -> world -> Prop) :
  args_shape args = Some shape ->
  args_direction args = None -> args_radius args = 0%Z ->
  args_base args = 0%Z -> args_triheight args = 0%Z ->
  args_speed args = 0%Z ->
  (forall d r b h sp q w,
     In d directions -> valid_radius r -> valid_side b -> valid_side h ->
     valid_speed sp -> valid_quadrant q -> saved w = s0 ->
     match (if shape =? "circle" then circle ROOT d r sp i q
            else if shape =? "triangle" then triangle ROOT d b h sp i q
            else ret tt) w with
     | Ok _ w' => forall l', Post l' w'
     | Raise e w' => Err e w'
     end) ->
  ends (fun w => saved w = s0) (loop_body ROOT args i l) Post Err.
Proof.
  destruct args as [n shape' radius rw rh base th direction speed].
  cbn [args_shape args_direction args_radius args_base args_triheight
       args_speed].
  intros -> -> -> -> -> -> K. unfold loop_body.
  cbn [args_iterations args_shape args_direction args_radius args_speed
       args_base args_triheight args_rectwidth args_rectheight Z.eqb].
  (* direction *)
  eapply ends_bind with
    (Mid := fun v w => saved w = s0 /\
                       exists d, v = Some d /\ In d directions).
  { intros w Hw.
    destruct (returns_choice s0 directions ltac:(discriminate) w Hw)
      as (d & w1 & E & Hw1 & Hd).
    exists (Some d), w1. unfold bind, ret.
    change ["right"; "left"; "up"; "down"; "diagonal"] with directions.
    rewrite E. split; [reflexivity |]. split; [exact Hw1 | now exists d]. }
  intros direction'. cbv beta.
  (* radius *)
  eapply ends_bind with
    (Mid := fun v w =>
              saved w = s0 /\
              (exists d, direction' = Some d /\ In d directions) /\
              exists r, v = Some r /\ valid_radius r).
  { intros w [Hw Hd].
    destruct (returns_randint s0 10 77 ltac:(lia) w Hw)
      as (r & w1 & E & Hw1 & Hr).
    exists (Some r), w1. unfold bind, ret. rewrite E.
    split; [reflexivity |]. split; [exact Hw1 |].
    split; [exact Hd | now exists r]. }
  intros radius'. cbv beta.
  (* base *)
  eapply ends_bind with
    (Mid := fun v w =>
              saved w = s0 /\
              ((exists d, direction' = Some d /\ In d directions) /\
               exists r, radius' = Some r /\ valid_radius r) /\
              exists b, v = Some b /\ valid_side b).
  { intros w [Hw Hrest].
    destruct (returns_randint s0 10 75 ltac:(lia) w Hw)
      as (b & w1 & E & Hw1 & Hb).
    exists (Some b), w1. unfold bind, ret. rewrite E.
    split; [reflexivity |]. split; [exact Hw1 |].
    split; [exact Hrest | now exists b]. }
  intros base'. cbv beta.
  (* triheight *)
  eapply ends_bind with
    (Mid := fun v w =>
              saved w = s0 /\
              (((exists d, direction' = Some d /\ In d directions) /\
                exists r, radius' = Some r /\ valid_radius r) /\
               exists b, base' = Some b /\ valid_side b) /\
              exists h, v = Some h /\ valid_side h).
  { intros w [Hw Hrest].
    destruct (returns_randint s0 10 75 ltac:(lia) w Hw)
      as (h & w1 & E & Hw1 & Hh).
    exists (Some h), w1. unfold bind, ret. rewrite E.
    split; [reflexivity |]. split; [exact Hw1 |].
    split; [exact Hrest | now exists h]. }
  intros th'. cbv beta.
  (* rectWidth *)
  eapply ends_bind with
    (Mid := fun (_ : option Z) w =>
              saved w = s0 /\
              (((exists d, direction' = Some d /\ In d directions) /\
                exists r, radius' = Some r /\ valid_radius r) /\
               exists b, base' = Some b /\ valid_side b) /\
              exists h, th' = Some h /\ valid_side h).
  { intros w [Hw Hrest].
    destruct (returns_flagged s0 (rw =? 0)%Z 10 75 (v_rectWidth l)
                              ltac:(lia) w Hw) as (v & w1 & E & Hw1 & _).
    exists v, w1. split; [exact E | now split]. }
  intros rw'. cbv beta.
  (* rectHeight *)
  eapply ends_bind with
    (Mid := fun (_ : option Z) w =>
              saved w = s0 /\
              (((exists d, direction' = Some d /\ In d directions) /\
                exists r, radius' = Some r /\ valid_radius r) /\
               exists b, base' = Some b /\ valid_side b) /\
              exists h, th' = Some h /\ valid_side h).
  { intros w [Hw Hrest].
    destruct (returns_flagged s0 (rh =? 0)%Z 10 75 (v_rectHeight l)
                              ltac:(lia) w Hw) as (v & w1 & E & Hw1 & _).
    exists v, w1. split; [exact E | now split]. }
  intros rh'. cbv beta.
  (* speed *)
  eapply ends_bind with
    (Mid := fun v w =>
              saved w = s0 /\
              ((((exists d, direction' = Some d /\ In d directions) /\
                 exists r, radius' = Some r /\ valid_radius r) /\
                exists b, base' = Some b /\ valid_side b) /\
               exists h, th' = Some h /\ valid_side h) /\
              exists sp, v = Some sp /\ valid_speed sp).
  { intros w [Hw Hrest].
    destruct (returns_randint s0 20 100 ltac:(lia) w Hw)
      as (sp & w1 & E & Hw1 & Hsp).
    exists (Some sp), w1. unfold bind, ret. rewrite E.
    split; [reflexivity |]. split; [exact Hw1 |].
    split; [exact Hrest | now exists sp]. }
  intros speed'. cbv beta.
  (* diagonalDirection *)
  eapply ends_bind with
    (Mid := fun q w =>
              saved w = s0 /\
              (((((exists d, direction' = Some d /\ In d directions) /\
                  exists r, radius' = Some r /\ valid_radius r) /\
                 exists b, base' = Some b /\ valid_side b) /\
                exists h, th' = Some h /\ valid_side h) /\
               exists sp, speed' = Some sp /\ valid_speed sp) /\
              valid_quadrant q).
  { intros w [Hw Hrest].
    destruct (returns_randint s0 1 4 ltac:(lia) w Hw)
      as (q & w1 & E & Hw1 & Hq).
    exists q, w1. split; [exact E |]. split; [exact Hw1 | now split]. }
  intros q. cbv beta.
  (* the dispatch on the shape *)
  intros w (Hw & (((((d & -> & Hd) & (r & -> & Hr)) & (b & -> & Hb))
                    & (h & -> & Hh)) & (sp & -> & Hsp)) & Hq).
  specialize (K d r b h sp q w Hd Hr Hb Hh Hsp Hq Hw).
  cbv beta iota delta [bind ret load].
  destruct (shape =? "circle"); [| destruct (shape =? "triangle")].
  - destruct (circle ROOT d r sp i q w); [apply K | exact K].
  - destruct (triangle ROOT d b h sp i q w); [apply K | exact K].
  - cbv [ret] in K. apply K.
Qed.

Lemma artifact_name_inj (ROOT : string) (r1 r2 : run) (n : string) :
  valid_run r1 -> valid_run r2 ->
  artifact_name ROOT r1 = Some n -> artifact_name ROOT r2 = Some n ->
  r1 = r2.
Proof.
  intros V1 V2 E1 E2.
  rewrite (artifact_name_documented ROOT r1 (proj1 (proj2 (proj2 V1))))
    in E1.
  rewrite (artifact_name_documented ROOT r2 (proj1 (proj2 (proj2 V2))))
    in E2.
  rewrite <- E2 in E1. injection E1 as E.
  apply append_inv_head in E. injection E as E.
  now apply documented_name_inj.
Qed.

Lemma range_spec (n : nat) :
  NoDup (range n) /\ forall i, In i (range n) -> (0 <= i)%Z.
Proof.
  unfold range. split.
  - generalize (seq_NoDup n 0). generalize (seq 0 n) as l.
    induction l as [| k l IH]; intros Hnd; cbn [map]; [constructor |].
    inversion Hnd as [| ? ? Hni Hnd']; subst. constructor; [| now apply IH].
    intros [j [Ej Hj]]%in_map_iff. apply Nat2Z.inj in Ej. now subst.
  - intros i [k [<- _]]%in_map_iff. lia.
Qed.

Lemma circle_diag3_raises (ROOT : string) (radius speed i : Z) (w : world) :
  exists w', circle ROOT "diagonal" radius speed i 3 w
             = Raise (NameError "size") w' /\ saved w' = saved w.
Proof.
  unfold circle, setpositioncircle.
  cbn [String.eqb Ascii.eqb Bool.eqb Z.eqb Pos.eqb].
  destruct (rand_coord_spec (256 - maxDistOver + radius) (256 - radius) w)
    as (x & E & _).
  exists (advance w). unfold bind. rewrite E. now split.
Qed.

(** One pass of the loop for an unpinned triangle. *)
Lemma loop_body_triangle_named (ROOT : string) (args : Namespace) (i : Z)
    (l : locals) (s0 : list artifact) :
  (0 <= i)%Z ->
  args_shape args = Some "triangle" ->
  args_direction args = None -> args_radius args = 0%Z ->
  args_base args = 0%Z -> args_triheight args = 0%Z ->
  args_speed args = 0%Z ->
  ends (fun w => saved w = s0) (loop_body ROOT args i l)
       (fun _ w => exists a, saved w = (s0 ++ [a])%list /\
                             full_animation a /\ named_run ROOT i a)
       (fun _ _ => False).
Proof.
  intros Hi Hs Hd Hr Hb Hh Hsp.
  apply (loop_body_unpinned ROOT args "triangle" i l s0); trivial.
  intros d r b h sp q w Id Vr Vb Vh Vsp Vq Hw.
  cbn [String.eqb Ascii.eqb Bool.eqb].
  destruct (triangle_saves ROOT d b h sp i q w Id Vq Vb Vh)
    as (v & name & ps & _ & E & En & Hall).
  rewrite E. intros _. eexists. cbn [saved]. rewrite Hw.
  split; [reflexivity |]. split.
  - split; [| reflexivity]. cbn [art_frames].
    apply Forall2_length in Hall. now rewrite <- Hall.
  - eexists. split; [| split; [| exact En]]; [| reflexivity].
    unfold valid_run. cbn. auto.
Qed.

(** One pass of the loop for an unpinned circle. *)
Lemma loop_body_circle_named (ROOT : string) (args : Namespace) (i : Z)
    (l : locals) (s0 : list artifact) :
  (0 <= i)%Z ->
  args_shape args = Some "circle" ->
  args_direction args = None -> args_radius args = 0%Z ->
  args_base args = 0%Z -> args_triheight args = 0%Z ->
  args_speed args = 0%Z ->
  ends (fun w => saved w = s0) (loop_body ROOT args i l)
       (fun _ w => exists a, saved w = (s0 ++ [a])%list /\
                             full_animation a /\ named_run ROOT i a)
       (fun e w => e = NameError "size" /\ saved w = s0).
Proof.
  intros Hi Hs Hd Hr Hb Hh Hsp.
  apply (loop_body_unpinned ROOT args "circle" i l s0); trivial.
  intros d r b h sp q w Id Vr Vb Vh Vsp Vq Hw.
  cbn [String.eqb Ascii.eqb Bool.eqb].
  destruct (String.eqb_spec d "diagonal") as [-> | Nd];
    [destruct (Z.eqb_spec q 3) as [-> | Nq] |].
  - destruct (circle_diag3_raises ROOT r sp i w) as (w' & E & S').
    rewrite E. split; [reflexivity | congruence].
  - destruct (setpositioncircle_returns "diagonal" r q w Id Vq
                ltac:(now right)) as (p & Ep).
    destruct (circle_saves ROOT "diagonal" r sp i q w _ p Id Vq Ep)
      as (name & ps & E & En & Hall).
    rewrite E. intros _. eexists. cbn [saved advance]. rewrite Hw.
    split; [reflexivity |]. split.
    + split; [| reflexivity]. cbn [art_frames].
      apply Forall2_length in Hall. now rewrite <- Hall.
    + eexists. split; [| split; [| exact En]]; [| reflexivity].
      unfold valid_run. cbn. auto.
  - destruct (setpositioncircle_returns d r q w Id Vq ltac:(now left))
      as (p & Ep).
    destruct (circle_saves ROOT d r sp i q w _ p Id Vq Ep)
      as (name & ps & E & En & Hall).
    rewrite E. intros _. eexists. cbn [saved advance]. rewrite Hw.
    split; [reflexivity |]. split.
    + split; [| reflexivity]. cbn [art_frames].
      apply Forall2_length in Hall. now rewrite <- Hall.
    + eexists. split; [| split; [| exact En]]; [| reflexivity].
      unfold valid_run. cbn. auto.
Qed.

(** A loop whose passes each save one artifact or stop the batch. *)
Lemma for_each_ends (ROOT : string) (args : Namespace)
    (Q : Z -> artifact -> Prop) (E : exn -> Prop) (indices : list Z) :
  (forall i l s0, In i indices ->
     ends (fun w => saved w = s0) (loop_body ROOT args i l)
          (fun _ w => exists a, saved w = (s0 ++ [a])%list /\ Q i a)
          (fun e w => E e /\ saved w = s0)) ->
  forall l w, exists arts ran,
    Forall2 Q ran arts /\
    match for_each (loop_body ROOT args) indices l w with
    | Ok _ w' => saved w' = (saved w ++ arts)%list /\ ran = indices
    | Raise e w' =>
        E e /\ saved w' = (saved w ++ arts)%list /\
        exists rest, rest <> [] /\ indices = (ran ++ rest)%list
    end.
Proof.
  induction indices as [| i rest IH]; intros H l w.
  - exists [], []. split; [constructor |]. cbn. now rewrite app_nil_r.
  - cbn [for_each]. unfold bind.
    pose proof (H i l (saved w) (or_introl eq_refl) w eq_refl) as H1.
    destruct (loop_body ROOT args i l w) as [l1 w1 | e w1].
    + destruct H1 as (a & S1 & Qa).
      destruct (IH (fun j l' s0 Hj => H j l' s0 (or_intror Hj)) l1 w1)
        as (arts & ran & HQ & Hm).
      exists (a :: arts), (i :: ran). split; [now constructor |].
      destruct (for_each (loop_body ROOT args) rest l1 w1) as [l2 w2 | e w2].
      * destruct Hm as [S2 ->]. split; [| reflexivity].
        rewrite S2, S1, <- app_assoc. reflexivity.
      * destruct Hm as (He & S2 & rest' & Hne & ->).
        split; [exact He |]. split.
        -- rewrite S2, S1, <- app_assoc. reflexivity.
        -- exists rest'. now split.
    + destruct H1 as [He S1]. exists [], []. split; [constructor |].
      split; [exact He |]. split; [now rewrite app_nil_r |].
      exists (i :: rest). split; [discriminate | reflexivity].
Qed.

Lemma named_paths_distinct (ROOT : string) (ran : list Z)
    (arts : list artifact) :
  Forall2 (fun i a => full_animation a /\ named_run ROOT i a) ran arts ->
  NoDup ran -> NoDup (map art_path arts).
Proof.
  induction 1 as [| i a ran arts [_ Ha] Hall IH]; intros Hnd.
  - constructor.
  - inversion Hnd as [| ? ? Hni Hnd']; subst. cbn [map]. constructor.
    + intros [b [Eb Hb]]%in_map_iff. apply Hni.
      clear IH Hnd Hnd' Hni.
      induction Hall as [| j c ran arts [_ Hc] Hall IH'];
        [contradiction |].
      destruct Hb as [-> | Hb]; [| right; now apply IH'].
      left. destruct Ha as (r1 & V1 & <- & N1).
      destruct Hc as (r2 & V2 & <- & N2).
      rewrite <- Eb in N1.
      now rewrite (artifact_name_inj ROOT r2 r1 _ V2 V1 N2 N1).
    + now apply IH.
Qed.

(** X12.  A batch of triangles with nothing but the shape (and possibly
    rectangle sizes) supplied always completes: [main] returns after adding
    one file per iteration; file number i holds 50 poses at 25 frames per
    second and is named after a valid run of index i (sizes, direction and
    speed within their documented ranges), and no two files of the batch
    have the same name. *)
Theorem triangle_batch_completes (ROOT : string) (args : Namespace)
    (w : world) :
  args_shape args = Some "triangle" ->
  args_direction args = None -> args_radius args = 0%Z ->
  args_base args = 0%Z -> args_triheight args = 0%Z ->
  args_speed args = 0%Z ->
  exists w' arts,
    main ROOT args w = Ok tt w' /\
    saved w' = (saved w ++ arts)%list /\
    Forall2 (fun i a => full_animation a /\ named_run ROOT i a)
            (range (Z.to_nat (args_iterations args))) arts /\
    NoDup (map art_path arts).
Proof.
  intros Hs Hd Hr Hb Hh Hsp.
  destruct (range_spec (Z.to_nat (args_iterations args))) as [Hnd Hpos].
  destruct (for_each_ends ROOT args
              (fun i a => full_animation a /\ named_run ROOT i a)
              (fun _ => False)
              (range (Z.to_nat (args_iterations args)))) with
    (l := unbound) (w := w) as (arts & ran & HQ & Hm).
  { intros i l s0 Hi w0 Hw0.
    pose proof (loop_body_triangle_named ROOT args i l s0 (Hpos i Hi)
                  Hs Hd Hr Hb Hh Hsp w0 Hw0) as H.
    destruct (loop_body ROOT args i l w0); [exact H | contradiction]. }
  unfold main, bind.
  destruct (for_each (loop_body ROOT args)
              (range (Z.to_nat (args_iterations args))) unbound w)
    as [l' w' | e w'].
  - destruct Hm as [S' ->]. exists w', arts.
    repeat split; trivial. now apply (named_paths_distinct ROOT _ _ HQ).
  - now destruct Hm.
Qed.

Lemma triangle_batch_completes_witness :
  exists w' arts,
    main "data" args_triangle w_used = Ok tt w' /\
    saved w' = (saved w_used ++ arts)%list /\
    Forall2 (fun i a => full_animation a /\ named_run "data" i a)
            (range (Z.to_nat (args_iterations args_triangle))) arts /\
    NoDup (map art_path arts).
Proof.
  apply (triangle_batch_completes "data" args_triangle w_used);
    reflexivity.
Defined.

(** X13.  A batch of circles with nothing but the shape supplied ends in
    one of two ways: [main] returns after one file per iteration, or it
    stops with [NameError] for the name [size] in some iteration.  Either
    way the files of the iterations before are saved, each with 50 poses
    at 25 frames per second under the name of a valid run of its index,
    with no name used twice, and the failing iteration itself saves
    nothing. *)
Theorem circle_batch_outcome (ROOT : string) (args : Namespace) (w : world) :
  args_shape args = Some "circle" ->
  args_direction args = None -> args_radius args = 0%Z ->
  args_base args = 0%Z -> args_triheight args = 0%Z ->
  args_speed args = 0%Z ->
  exists w' arts ran,
    saved w' = (saved w ++ arts)%list /\
    Forall2 (fun i a => full_animation a /\ named_run ROOT i a) ran arts /\
    NoDup (map art_path arts) /\
    ((main ROOT args w = Ok tt w' /\
      ran = range (Z.to_nat (args_iterations args))) \/
     (main ROOT args w = Raise (NameError "size") w' /\
      exists rest, rest <> [] /\
        range (Z.to_nat (args_iterations args)) = (ran ++ rest)%list)).
Proof.
  intros Hs Hd Hr Hb Hh Hsp.
  destruct (range_spec (Z.to_nat (args_iterations args))) as [Hnd Hpos].
  destruct (for_each_ends ROOT args
              (fun i a => full_animation a /\ named_run ROOT i a)
              (fun e => e = NameError "size")
              (range (Z.to_nat (args_iterations args)))) with
    (l := unbound) (w := w) as (arts & ran & HQ & Hm).
  { intros i l s0 Hi.
    exact (loop_body_circle_named ROOT args i l s0 (Hpos i Hi)
             Hs Hd Hr Hb Hh Hsp). }
  unfold main, bind.
  destruct (for_each (loop_body ROOT args)
              (range (Z.to_nat (args_iterations args))) unbound w)
    as [l' w' | e w'].
  - destruct Hm as [S' ->].
    exists w', arts, (range (Z.to_nat (args_iterations args))).
    split; [exact S' |]. split; [exact HQ |].
    split; [now apply (named_paths_distinct ROOT _ _ HQ) |].
    left. now split.
  - destruct Hm as (-> & S' & rest & Hne & Er).
    exists w', arts, ran.
    split; [exact S' |]. split; [exact HQ |]. split.
    + apply (named_paths_distinct ROOT _ _ HQ).
      rewrite Er in Hnd. now apply NoDup_app_remove_r in Hnd.
    + right. split; [reflexivity |]. now exists rest.
Qed.

Lemma circle_batch_outcome_witness :
  exists w' arts ran,
    saved w' = (saved w_used ++ arts)%list /\
    Forall2 (fun i a => full_animation a /\ named_run "data" i a)
            ran arts /\
    NoDup (map art_path arts) /\
    ((main "data" args_circle w_used = Ok tt w' /\
      ran = range (Z.to_nat (args_iterations args_circle))) \/
     (main "data" args_circle w_used = Raise (NameError "size") w' /\
      exists rest, rest <> [] /\
        range (Z.to_nat (args_iterations args_circle))
          = (ran ++ rest)%list)).
Proof.
  apply (circle_batch_outcome "data" args_circle w_used); reflexivity.
Defined.

(** X14.  With [--iterations] zero or negative [main] does nothing at all:
    it returns at once, draws nothing and saves nothing, also when sizes,
    direction or speed are supplied (which stops every run that is
    started). *)
Theorem no_iterations (ROOT : string) (args : Namespace) (w : world) :
  (args_iterations args <= 0)%Z ->
  main ROOT args w = Ok tt w.
Proof.
  intros H. unfold main.
  replace (Z.to_nat (args_iterations args)) with 0%nat by lia.
  reflexivity.
Qed.

Lemma no_iterations_witness :
  main "data" args_no_iterations w_used = Ok tt w_used.
Proof.
  apply (no_iterations "data" args_no_iterations w_used). cbn. lia.
Defined.

Lemma int_option_carried (name : string) (lo hi : Z) (v : option Z) (z : Z) :
  (0 < lo)%Z -> int_option name lo hi v = inr z -> carried z v.
Proof.
  unfold int_option, in_range, carried. intros Hlo.
  destruct v as [x |]; [| now intros [= <-]].
  destruct (Z.leb_spec lo x); cbn [andb]; [| discriminate].
  destruct (x <? hi)%Z; [| discriminate].
  intros [= <-]. split; [reflexivity | lia].
Qed.

(** X15.  What the parser accepts it passes on unchanged: shape and
    direction as supplied, the iterations or 1, and for every size and for
    the speed the supplied value.  A supplied size or speed is never 0 in
    the namespace, so that the 0 that [main] reads as "randomize" stands
    for an absent option only. *)
Theorem parsed_values (cl : command_line) (args : Namespace) :
  parse_args cl = inr args ->
  args_shape args = cl_shape cl /\
  args_direction args = cl_direction cl /\
  args_iterations args
    = match cl_iterations cl with None => 1%Z | Some n => n end /\
  carried (args_radius args) (cl_radius cl) /\
  carried (args_rectwidth args) (cl_rectwidth cl) /\
  carried (args_rectheight args) (cl_rectheight cl) /\
  carried (args_base args) (cl_base cl) /\
  carried (args_triheight args) (cl_triheight cl) /\
  carried (args_speed args) (cl_speed cl).
Proof.
  destruct cl as [it shape radius rw rh base th direction speed].
  unfold parse_args.
  cbn [cl_iterations cl_shape cl_radius cl_rectwidth cl_rectheight cl_base
       cl_triheight cl_direction cl_speed].
  destruct shape as [s |]; [| discriminate].
  destruct (negb (in_choices shape_choices s)); [discriminate |].
  destruct (int_option "radius" 10 78 radius) eqn:E1; [discriminate |].
  destruct (int_option "rectwidth" 10 76 rw) eqn:E2; [discriminate |].
  destruct (int_option "rectheight" 10 76 rh) eqn:E3; [discriminate |].
  destruct (int_option "base" 10 76 base) eqn:E4; [discriminate |].
  destruct (int_option "triheight" 10 76 th) eqn:E5; [discriminate |].
  apply int_option_carried in E1, E2, E3, E4, E5; try lia.
  destruct direction as [d |];
    [destruct (in_choices direction_choices d); [| discriminate] |];
    (destruct (int_option "speed" 20 101 speed) eqn:E6; [discriminate |]);
    apply int_option_carried in E6; try lia;
    intros [= <-];
    cbn [args_shape args_direction args_iterations args_radius
         args_rectwidth args_rectheight args_base args_triheight args_speed];
    repeat split; trivial.
Qed.

Lemma parsed_values_witness :
  let args :=
    {| args_iterations := 5; args_shape := Some "triangle";
       args_radius := 0; args_rectwidth := 0; args_rectheight := 0;
       args_base := 30; args_triheight := 0;
       args_direction := Some "left"; args_speed := 100 |} in
  args_shape args = cl_shape cl_triangle /\
  args_direction args = cl_direction cl_triangle /\
  args_iterations args
    = match cl_iterations cl_triangle with None => 1%Z | Some n => n end /\
  carried (args_radius args) (cl_radius cl_triangle) /\
  carried (args_rectwidth args) (cl_rectwidth cl_triangle) /\
  carried (args_rectheight args) (cl_rectheight cl_triangle) /\
  carried (args_base args) (cl_base cl_triangle) /\
  carried (args_triheight args) (cl_triheight cl_triangle) /\
  carried (args_speed args) (cl_speed cl_triangle).
Proof.
  apply (parsed_values cl_triangle). reflexivity.
Defined.

(** X16.  For the first thousand runs the index field of the file name is
    exactly three decimal digits wide and reads back as the index. *)
Theorem index_field_width (i : Z) :
  (0 <= i < 1000)%Z ->
  String.length (format_03 i) = 3%nat /\
  all_digits (format_03 i) = true /\
  digits_value (format_03 i) = Some i.
Proof.
  intros Hi. split; [| apply format_03_nonneg; lia].
  assert (H : forallb (fun n => Nat.eqb
                         (String.length (format_03 (Z.of_nat n))) 3)
                      (seq 0 1000) = true) by (vm_compute; reflexivity).
  rewrite forallb_forall in H.
  specialize (H (Z.to_nat i)). rewrite Z2Nat.id in H by lia.
  apply Nat.eqb_eq, H, in_seq. lia.
Qed.

Lemma index_field_width_witness :
  String.length (format_03 42) = 3%nat /\
  all_digits (format_03 42) = true /\
  digits_value (format_03 42) = Some 42%Z.
Proof.
  apply (index_field_width 42). lia.
Defined.
